(** * Autocomplete: query-lifecycle controller and selection state machine

    A shallow embedding of [components/api.ts] ([searchCities]) and of the
    [Autocomplete] React component (debounce + fetch + cache + abort effect,
    keyboard handler, [select]).

    JavaScript strings are sequences of UTF-16 code units; they are modelled
    as [list N].  The cache ([Map<string, string[]>]) is a [gmap]. *)

From stdpp Require Import gmap list.
From Stdlib Require Import ZArith Lia Ascii.
From Stdlib Require String.
Import String.StringSyntax.
Open Scope string_scope.

Open Scope Z_scope.

(** ** JavaScript strings *)

Abbreviation jsstring := (list N).

(** Code units of an ASCII literal. *)
Fixpoint js (s : String.string) : jsstring :=
  match s with
  | String.EmptyString => []
  | String.String c s' => N_of_ascii c :: js s'
  end.

(** [WhiteSpace] and [LineTerminator] code points of ECMA-262, the ones
    [String.prototype.trim] strips. *)
Definition isWhiteSpace (c : N) : bool :=
  ((9 <=? c) && (c <=? 13) || (c =? 32) || (c =? 160) || (c =? 5760)
   || (8192 <=? c) && (c <=? 8202) || (c =? 8232) || (c =? 8233)
   || (c =? 8239) || (c =? 8287) || (c =? 12288) || (c =? 65279))%N.

Fixpoint trimStart (s : jsstring) : jsstring :=
  match s with
  | c :: s' => if isWhiteSpace c then trimStart s' else s
  | [] => []
  end.

Definition trimEnd (s : jsstring) : jsstring := rev (trimStart (rev s)).

Definition trim (s : jsstring) : jsstring := trimEnd (trimStart s).

(** [s.startsWith(p)] *)
Fixpoint startsWith (s p : jsstring) {struct p} : bool :=
  match p, s with
  | [], _ => true
  | _ :: _, [] => false
  | a :: p', b :: s' => (a =? b)%N && startsWith s' p'
  end.

(** [s.includes(p)]: [p] occurs in [s] at some position. *)
Fixpoint includes (s p : jsstring) : bool :=
  startsWith s p ||
  match s with
  | [] => false
  | _ :: s' => includes s' p
  end.

(** ** The suggestion source, [api.ts] *)

Module Api.

Definition data : list jsstring :=
  [ js "Boston";
    js "Bogot" ++ [225%N];
    js "Buenos Aires";
    js "Bangalore";
    js "Berlin";
    js "Barcelona";
    js "Beijing";
    js "Brisbane" ].

Section Source.

(** [String.prototype.toLowerCase] is a builtin of the host language; the
    source is embedded over any such function. *)
Variable toLowerCase : jsstring -> jsstring.

(** The value the promise resolves with when its 400 ms timer fires. *)
Definition searchCities (q : jsstring) : list jsstring :=
  filter (fun c => Is_true (includes (toLowerCase c) (toLowerCase q))) data.

End Source.

(** Lower-casing restricted to Basic Latin and Latin-1 Supplement, where
    the builtin maps code unit by code unit. *)
Definition lowerUnit (c : N) : N :=
  (if (65 <=? c) && (c <=? 90) then c + 32
   else if (192 <=? c) && (c <=? 222) && negb (c =? 215) then c + 32
   else c)%N.

Definition latin1LowerCase (s : jsstring) : jsstring := map lowerUnit s.

End Api.

(** ** The [Autocomplete] component *)

(** Values a promise can reject with. *)
Inductive JsError :=
  | DOMException (message name : jsstring)
  | OtherError (message : jsstring).

(** [err instanceof DOMException && err.name === "AbortError"] *)
Definition isAbortError (err : JsError) : bool :=
  match err with
  | DOMException _ name => bool_decide (name = js "AbortError")
  | OtherError _ => false
  end.

Inductive Outcome :=
  | Resolved (res : list jsstring)
  | Rejected (err : JsError).

Inductive Key := ArrowDown | ArrowUp | Enter | Escape | OtherKey.

(** [AutocompleteProps]; [onSelect] tells whether the host passed the
    callback, whose calls are logged in [selected]. *)
Record Props := { minQueryLength : Z; onSelect : bool }.

(** One mounted instance together with the part of the browser it talks to.
    - refs: [controllerRef] (the controller's identity), [debounceRef] (a
      timer id; ids are positive, hence truthy), [cacheRef];
    - [useState] cells: [query], [results], [isOpen], [loading],
      [highlightedIndex];
    - [timers]: pending debounce timeouts, each with the [q] its callback
      closes over;
    - [inflight]: promises of [searchCities] not yet settled, by controller,
      each holding its own 400 ms timer and abort listener;
    - [jobs]: the promise job queue, continuations of promises already
      settled;
    - [fetched]: the calls of [searchCities]; [console]: the calls of
      [console.error]; [selected]: the arguments of the calls of [onSelect],
      [None] standing for [undefined]. *)
Record State := {
  controllerRef : option nat;
  debounceRef : option nat;
  cacheRef : gmap jsstring (list jsstring);
  query : jsstring;
  results : list jsstring;
  isOpen : bool;
  loading : bool;
  highlightedIndex : Z;
  timers : list (nat * jsstring);
  inflight : list (nat * jsstring);
  jobs : list (jsstring * Outcome);
  fetched : list jsstring;
  console : list JsError;
  selected : list (option jsstring);
  nextId : nat
}.

Definition set_controllerRef (v : option nat) (s : State) : State :=
  {| controllerRef := v; debounceRef := debounceRef s;
     cacheRef := cacheRef s; query := query s; results := results s;
     isOpen := isOpen s; loading := loading s;
     highlightedIndex := highlightedIndex s; timers := timers s;
     inflight := inflight s; jobs := jobs s; fetched := fetched s;
     console := console s; selected := selected s; nextId := nextId s |}.

Definition set_debounceRef (v : option nat) (s : State) : State :=
  {| controllerRef := controllerRef s; debounceRef := v;
     cacheRef := cacheRef s; query := query s; results := results s;
     isOpen := isOpen s; loading := loading s;
     highlightedIndex := highlightedIndex s; timers := timers s;
     inflight := inflight s; jobs := jobs s; fetched := fetched s;
     console := console s; selected := selected s; nextId := nextId s |}.

Definition set_cacheRef (v : gmap jsstring (list jsstring)) (s : State) : State :=
  {| controllerRef := controllerRef s; debounceRef := debounceRef s;
     cacheRef := v; query := query s; results := results s;
     isOpen := isOpen s; loading := loading s;
     highlightedIndex := highlightedIndex s; timers := timers s;
     inflight := inflight s; jobs := jobs s; fetched := fetched s;
     console := console s; selected := selected s; nextId := nextId s |}.

Definition set_query (v : jsstring) (s : State) : State :=
  {| controllerRef := controllerRef s; debounceRef := debounceRef s;
     cacheRef := cacheRef s; query := v; results := results s;
     isOpen := isOpen s; loading := loading s;
     highlightedIndex := highlightedIndex s; timers := timers s;
     inflight := inflight s; jobs := jobs s; fetched := fetched s;
     console := console s; selected := selected s; nextId := nextId s |}.

Definition set_results (v : list jsstring) (s : State) : State :=
  {| controllerRef := controllerRef s; debounceRef := debounceRef s;
     cacheRef := cacheRef s; query := query s; results := v;
     isOpen := isOpen s; loading := loading s;
     highlightedIndex := highlightedIndex s; timers := timers s;
     inflight := inflight s; jobs := jobs s; fetched := fetched s;
     console := console s; selected := selected s; nextId := nextId s |}.

Definition set_isOpen (v : bool) (s : State) : State :=
  {| controllerRef := controllerRef s; debounceRef := debounceRef s;
     cacheRef := cacheRef s; query := query s; results := results s;
     isOpen := v; loading := loading s;
     highlightedIndex := highlightedIndex s; timers := timers s;
     inflight := inflight s; jobs := jobs s; fetched := fetched s;
     console := console s; selected := selected s; nextId := nextId s |}.

Definition set_loading (v : bool) (s : State) : State :=
  {| controllerRef := controllerRef s; debounceRef := debounceRef s;
     cacheRef := cacheRef s; query := query s; results := results s;
     isOpen := isOpen s; loading := v;
     highlightedIndex := highlightedIndex s; timers := timers s;
     inflight := inflight s; jobs := jobs s; fetched := fetched s;
     console := console s; selected := selected s; nextId := nextId s |}.

Definition set_highlightedIndex (v : Z) (s : State) : State :=
  {| controllerRef := controllerRef s; debounceRef := debounceRef s;
     cacheRef := cacheRef s; query := query s; results := results s;
     isOpen := isOpen s; loading := loading s; highlightedIndex := v;
     timers := timers s; inflight := inflight s; jobs := jobs s;
     fetched := fetched s; console := console s; selected := selected s;
     nextId := nextId s |}.

Definition set_timers (v : list (nat * jsstring)) (s : State) : State :=
  {| controllerRef := controllerRef s; debounceRef := debounceRef s;
     cacheRef := cacheRef s; query := query s; results := results s;
     isOpen := isOpen s; loading := loading s;
     highlightedIndex := highlightedIndex s; timers := v;
     inflight := inflight s; jobs := jobs s; fetched := fetched s;
     console := console s; selected := selected s; nextId := nextId s |}.

Definition set_inflight (v : list (nat * jsstring)) (s : State) : State :=
  {| controllerRef := controllerRef s; debounceRef := debounceRef s;
     cacheRef := cacheRef s; query := query s; results := results s;
     isOpen := isOpen s; loading := loading s;
     highlightedIndex := highlightedIndex s; timers := timers s;
     inflight := v; jobs := jobs s; fetched := fetched s;
     console := console s; selected := selected s; nextId := nextId s |}.

Definition set_jobs (v : list (jsstring * Outcome)) (s : State) : State :=
  {| controllerRef := controllerRef s; debounceRef := debounceRef s;
     cacheRef := cacheRef s; query := query s; results := results s;
     isOpen := isOpen s; loading := loading s;
     highlightedIndex := highlightedIndex s; timers := timers s;
     inflight := inflight s; jobs := v; fetched := fetched s;
     console := console s; selected := selected s; nextId := nextId s |}.

Definition set_fetched (v : list jsstring) (s : State) : State :=
  {| controllerRef := controllerRef s; debounceRef := debounceRef s;
     cacheRef := cacheRef s; query := query s; results := results s;
     isOpen := isOpen s; loading := loading s;
     highlightedIndex := highlightedIndex s; timers := timers s;
     inflight := inflight s; jobs := jobs s; fetched := v;
     console := console s; selected := selected s; nextId := nextId s |}.

Definition set_console (v : list JsError) (s : State) : State :=
  {| controllerRef := controllerRef s; debounceRef := debounceRef s;
     cacheRef := cacheRef s; query := query s; results := results s;
     isOpen := isOpen s; loading := loading s;
     highlightedIndex := highlightedIndex s; timers := timers s;
     inflight := inflight s; jobs := jobs s; fetched := fetched s;
     console := v; selected := selected s; nextId := nextId s |}.

Definition set_selected (v : list (option jsstring)) (s : State) : State :=
  {| controllerRef := controllerRef s; debounceRef := debounceRef s;
     cacheRef := cacheRef s; query := query s; results := results s;
     isOpen := isOpen s; loading := loading s;
     highlightedIndex := highlightedIndex s; timers := timers s;
     inflight := inflight s; jobs := jobs s; fetched := fetched s;
     console := console s; selected := v; nextId := nextId s |}.

Definition set_nextId (v : nat) (s : State) : State :=
  {| controllerRef := controllerRef s; debounceRef := debounceRef s;
     cacheRef := cacheRef s; query := query s; results := results s;
     isOpen := isOpen s; loading := loading s;
     highlightedIndex := highlightedIndex s; timers := timers s;
     inflight := inflight s; jobs := jobs s; fetched := fetched s;
     console := console s; selected := selected s; nextId := v |}.

Notation "s |> f" := (f s) (at level 45, left associativity, only parsing).

Definition abortError : JsError := DOMException (js "Aborted") (js "AbortError").

(** [clearTimeout(id)] *)
Definition clearTimeout (id : nat) (s : State) : State :=
  set_timers (filter (fun t => t.1 ≠ id) (timers s)) s.

(** [debounceRef.current = window.setTimeout(<callback over q>, 300)] *)
Definition armDebounce (q : jsstring) (s : State) : State :=
  let id := nextId s in
  s |> set_timers (timers s ++ [(id, q)]) |> set_nextId (S id)
    |> set_debounceRef (Some id).

(** [controller.abort()]: the listener installed by [searchCities] clears the
    promise's timer and rejects it; the continuation awaiting it is queued.
    On a promise already settled both are no-ops. *)
Definition abort (c : nat) (s : State) : State :=
  match list_find (fun r => r.1 = c) (inflight s) with
  | Some (_, (_, q)) =>
      s |> set_inflight (filter (fun r => r.1 ≠ c) (inflight s))
        |> set_jobs (jobs s ++ [(q, Rejected abortError)])
  | None => s
  end.

(** [controllerRef.current?.abort()] *)
Definition abortCurrent (s : State) : State :=
  match controllerRef s with
  | Some c => abort c s
  | None => s
  end.

(** [const controller = new AbortController(); controllerRef.current =
    controller; searchCities(q, { signal: controller.signal })] *)
Definition fetch (q : jsstring) (s : State) : State :=
  let c := nextId s in
  s |> set_nextId (S c) |> set_controllerRef (Some c)
    |> set_inflight (inflight s ++ [(c, q)])
    |> set_fetched (fetched s ++ [q]).

Definition cacheSet (q : jsstring) (res : list jsstring) (s : State) : State :=
  set_cacheRef (<[q:=res]> (cacheRef s)) s.

Definition consoleError (err : JsError) (s : State) : State :=
  set_console (console s ++ [err]) s.

(** The debounce callback after its [await]: the [try] continuation, the
    [catch] and the [finally]. *)
Definition settled (q : jsstring) (o : Outcome) (s : State) : State :=
  let s :=
    match o with
    | Resolved res => s |> cacheSet q res |> set_results res
    | Rejected err => if isAbortError err then s else consoleError err s
    end in
  s |> set_loading false |> set_controllerRef None
    |> set_highlightedIndex (-1).

(** The debounce callback up to its [await]. *)
Definition debounced (q : jsstring) (s : State) : State :=
  match cacheRef s !! q with
  | Some res =>
      s |> set_results res |> set_loading false |> set_highlightedIndex (-1)
  | None => s |> abortCurrent |> fetch q
  end.

Definition clearDebounce (s : State) : State :=
  match debounceRef s with
  | Some id => s |> clearTimeout id |> set_debounceRef None
  | None => s
  end.

(** The effect on [[query, minQueryLength]].  The cleanup of its previous run
    is [clearDebounce], which the body starts with. *)
Definition effect (props : Props) (s : State) : State :=
  let s := clearDebounce s in
  let q := trim (query s) in
  if Z.of_nat (length q) <? minQueryLength props then
    s |> set_results [] |> set_loading false
  else
    s |> set_loading true |> armDebounce q.

(** What a handler leaves behind.  [Kept s]: the state [s].
    [QueryUndefined s]: the handler called [setQuery(undefined)]; [s] is the
    state it left apart from [query], which holds no string any more. *)
Inductive Handled :=
  | Kept (s : State)
  | QueryUndefined (s : State).

Definition state_of (h : Handled) : State :=
  match h with
  | Kept s | QueryUndefined s => s
  end.

(** [select(value)]; [value] is an option's item or [results[i]], a string
    or [undefined] ([None]).  Every statement runs in both cases. *)
Definition select (props : Props) (value : option jsstring) (s : State)
    : Handled :=
  let rest (s : State) :=
    let s := s |> set_isOpen false |> set_highlightedIndex (-1)
               |> abortCurrent in
    if onSelect props then set_selected (selected s ++ [value]) s else s in
  match value with
  | Some v => Kept (rest (set_query v s))
  | None => QueryUndefined (rest s)
  end.

(** [onKeyDown]; [Enter] hands [results[highlightedIndex]] to [select], be it
    a string or, out of range, [undefined]. *)
Definition onKeyDown (props : Props) (key : Key) (s : State) : Handled :=
  match key with
  | ArrowDown =>
      let s := if isOpen s then s else set_isOpen true s in
      let n := Z.of_nat (length (results s)) in
      if n =? 0 then Kept s
      else
        let prev := highlightedIndex s in
        Kept (set_highlightedIndex (if prev <? n - 1 then prev + 1 else 0) s)
  | ArrowUp =>
      let s := if isOpen s then s else set_isOpen true s in
      let n := Z.of_nat (length (results s)) in
      if n =? 0 then Kept s
      else
        let prev := highlightedIndex s in
        Kept (set_highlightedIndex (if prev <=? 0 then n - 1 else prev - 1) s)
  | Enter =>
      if isOpen s && (0 <=? highlightedIndex s) then
        select props (results s !! Z.to_nat (highlightedIndex s)) s
      else Kept s
  | Escape => Kept (s |> set_isOpen false |> set_highlightedIndex (-1))
  | OtherKey => Kept s
  end.

(** The input's [onChange] *)
Definition onChange (raw : jsstring) (s : State) : State :=
  s |> set_query raw |> set_isOpen true.

(** The option at position [idx], when it is rendered. *)
Definition option_at (idx : nat) (s : State) : option jsstring :=
  if isOpen s && negb (loading s) then results s !! idx else None.

(** What can happen to a mounted instance: the events of the input and of
    the options, a press outside the root, a debounce timer firing, and the
    promise of a request settling.  Unmounting ends the run and is left out. *)
Inductive Event :=
  | Change (raw : jsstring)
  | KeyDown (key : Key)
  | OptionMouseDown (idx : nat)
  | OptionMouseEnter (idx : nat)
  | OutsideMouseDown
  | TimerFire (id : nat)
  | Settle (c : nat) (o : Outcome).

(** The handler an event runs, one turn of the event loop. *)
Definition handle (props : Props) (ev : Event) (s : State) : Handled :=
  match ev with
  | Change raw => Kept (onChange raw s)
  | KeyDown key => onKeyDown props key s
  | OptionMouseDown idx =>
      match option_at idx s with
      | Some item => select props (Some item) s
      | None => Kept s
      end
  | OptionMouseEnter idx =>
      match option_at idx s with
      | Some _ => Kept (set_highlightedIndex (Z.of_nat idx) s)
      | None => Kept s
      end
  | OutsideMouseDown =>
      Kept (s |> set_isOpen false |> set_highlightedIndex (-1))
  | TimerFire id =>
      match list_find (fun t => t.1 = id) (timers s) with
      | Some (_, (_, q)) => Kept (s |> clearTimeout id |> debounced q)
      | None => Kept s
      end
  | Settle c o =>
      match list_find (fun r => r.1 = c) (inflight s) with
      | Some (_, (_, q)) =>
          Kept (s |> set_inflight (filter (fun r => r.1 ≠ c) (inflight s))
                  |> settled q o)
      | None => Kept s
      end
  end.

(** The promise jobs queued during a turn run when its handler returns. *)
Definition runJobs (s : State) : State :=
  fold_left (fun st j => settled j.1 j.2 st) (jobs s) (set_jobs [] s).

(** What follows the handler within a turn: React commits the state and
    re-runs the effect when [query] changed (the render is scheduled by the
    handler's first [setState], ahead of any promise job the handler queues),
    then the queued continuations run. *)
Definition commit (props : Props) (before s : State) : State :=
  runJobs (if decide (query s = query before) then s else effect props s).

(** One turn.  After [setQuery(undefined)] the effect re-runs, [query]
    having changed, and throws on [query.trim()]: the component is gone. *)
Definition step (props : Props) (ev : Event) (s : State) : option State :=
  match handle props ev s with
  | Kept s' => Some (commit props s s')
  | QueryUndefined _ => None
  end.

Fixpoint run (props : Props) (evs : list Event) (s : State) : option State :=
  match evs with
  | [] => Some s
  | ev :: evs' =>
      match step props ev s with
      | Some s' => run props evs' s'
      | None => None
      end
  end.

Definition initial : State :=
  {| controllerRef := None; debounceRef := None; cacheRef := ∅;
     query := []; results := []; isOpen := false; loading := false;
     highlightedIndex := -1; timers := []; inflight := []; jobs := [];
     fetched := []; console := []; selected := []; nextId := 1 |}.

(** Mounting runs the effect once. *)
Definition mount (props : Props) : State := effect props initial.

Definition reachable (props : Props) (s : State) : Prop :=
  exists evs, run props evs (mount props) = Some s.

Definition defaultProps : Props := {| minQueryLength := 1; onSelect := true |}.

(** ** Predicates the properties are stated with *)

(** [r] is [l] restricted to the entries satisfying [P], in the order of [l]. *)
Inductive Keeps {A} (P : A -> Prop) : list A -> list A -> Prop :=
  | keeps_nil : Keeps P [] []
  | keeps_yes x l r : P x -> Keeps P l r -> Keeps P (x :: l) (x :: r)
  | keeps_no x l r : ~ P x -> Keeps P l r -> Keeps P (x :: l) r.

(** [p] is a substring of [s]. *)
Definition Substring (p s : jsstring) : Prop :=
  exists pre post, s = pre ++ p ++ post.

(** ** Invariants of the component, as predicates *)

(** The highlight points into [results], or is unset, whenever there are
    results at all. *)
Definition hl_ok (s : State) : Prop :=
  results s = [] \/
  -1 <= highlightedIndex s < Z.of_nat (length (results s)).

(** The highlight is unset or the position of one of the [results]. *)
Definition highlight_in_bounds (s : State) : Prop :=
  highlightedIndex s = -1 \/
  0 <= highlightedIndex s < Z.of_nat (length (results s)).

(** Timer ids are handed out in increasing order. *)
Definition fresh (s : State) : Prop :=
  Forall (fun t => (t.1 < nextId s)%nat) (timers s).

(** What holds between two turns of the event loop. *)
Record Inv (s : State) : Prop := {
  inv_jobs : jobs s = [];
  inv_fresh : fresh s;
  inv_hl : hl_ok s
}.


(** ** Scenarios *)

(** The source of [api.ts], lower-casing within Latin-1. *)
Definition source : jsstring -> list jsstring :=
  Api.searchCities Api.latin1LowerCase.

(** The delays of the two [window.setTimeout] calls: the debounce of the
    component and the latency of [searchCities]. *)
Definition debounceDelay : Z := 300.
Definition latency : Z := 400.

#[global] Instance JsError_eq_dec : EqDecision JsError.
Proof. solve_decision. Defined.

#[global] Instance Outcome_eq_dec : EqDecision Outcome.
Proof. solve_decision. Defined.

(** The ids handed out by the turn at time [t], from [s] to [s']. *)
Definition born_during (t : Z) (s s' : State) : list (nat * Z) :=
  (fun i => (i, t)) <$> seq (nextId s) (nextId s' - nextId s).

(** [on_schedule props born now tevs s]: the dated events [tevs] are a run
    the browser can produce from [s] at time [now], where [born] dates the
    timers and requests pending in [s].  Dates do not decrease; no pending
    timer or request is overdue when an event is taken; a debounce timer
    fires [debounceDelay] after it was armed; a request settles [latency]
    after it was issued, resolving with what [searchCities] computes. *)
Fixpoint on_schedule (props : Props) (born : gmap nat Z) (now : Z)
    (tevs : list (Z * Event)) (s : State) : bool :=
  match tevs with
  | [] => true
  | (t, ev) :: rest =>
      let due (d : Z) (id : nat) := default 0 (born !! id) + d in
      (now <=? t)
      && forallb (fun tm => t <=? due debounceDelay tm.1) (timers s)
      && forallb (fun r => t <=? due latency r.1) (inflight s)
      && match ev with
         | TimerFire id =>
             bool_decide (id ∈ (timers s).*1) && (t =? due debounceDelay id)
         | Settle c o =>
             match list_find (fun r => r.1 = c) (inflight s) with
             | Some (_, (_, q)) =>
                 bool_decide (o = Resolved (source q)) && (t =? due latency c)
             | None => false
             end
         | _ => true
         end
      && match step props ev s with
         | Some s' =>
             on_schedule props (list_to_map (born_during t s s') ∪ born) t
               rest s'
         | None => true
         end
  end.

(** A dated run from mounting at time 0. *)
Definition timed (props : Props) (dates : list Z) (evs : list Event) : bool :=
  bool_decide (length dates = length evs)
  && on_schedule props ∅ 0 (zip dates evs) (mount props).

(** The state a run from mounting ends in. *)
Definition after (props : Props) (evs : list Event) : State :=
  default initial (run props evs (mount props)).

(** "b" is typed, the debounce fires and the request resolves. *)
Definition typed_b : list Event :=
  [ Change (js "b"); TimerFire 1; Settle 2 (Resolved (source (js "b"))) ].

(** Keys at 0, 350 and 700 ms: each debounce fires (300, 650, 1000 ms)
    before the next key and before the request of the previous one, issued
    400 ms earlier at most, has resolved. *)
Definition paced_typing : list Event :=
  [ Change (js "b"); TimerFire 1; Change (js "bo"); TimerFire 3;
    Change (js "bos"); TimerFire 5 ].

(** [ev] commits [value] in [s]: [Enter] on a highlighted option of the open
    panel, or a pointer press on a rendered option. *)
Definition commits (ev : Event) (s : State) (value : jsstring) : Prop :=
  (ev = KeyDown Enter /\ isOpen s = true /\ 0 <= highlightedIndex s /\
   results s !! Z.to_nat (highlightedIndex s) = Some value)
  \/ (exists idx, ev = OptionMouseDown idx /\ option_at idx s = Some value).

(** ** Further invariants, as predicates *)

(** [s1] differs from [s] in the text, the panel flag and the highlight at
    most. *)
Definition same_core (s s1 : State) : Prop :=
  controllerRef s1 = controllerRef s /\ debounceRef s1 = debounceRef s /\
  cacheRef s1 = cacheRef s /\ results s1 = results s /\
  loading s1 = loading s /\ timers s1 = timers s /\
  inflight s1 = inflight s /\ jobs s1 = jobs s /\ fetched s1 = fetched s /\
  console s1 = console s /\ selected s1 = selected s /\
  nextId s1 = nextId s.

(** Every queued continuation is that of an aborted request. *)
Definition jobs_aborts (s : State) : Prop :=
  Forall (fun j => j.2 = Rejected abortError) (jobs s).

(** A closed panel has no highlight. *)
Definition closed_unset (s : State) : Prop :=
  isOpen s = false -> highlightedIndex s = -1.

(** At most one debounce timer is pending; [debounceRef] names it and it
    carries the trimmed text, which is long enough. *)
Definition one_timer (props : Props) (s : State) : Prop :=
  timers s = [] \/
  exists id, debounceRef s = Some id /\
    timers s = [(id, trim (query s))] /\
    minQueryLength props <= Z.of_nat (length (trim (query s))).

(** The requests in flight have distinct controllers, all handed out
    already, and [controllerRef] names one of them when it names any. *)
Record requests_ok (s : State) : Prop := {
  req_nodup : NoDup (inflight s).*1;
  req_fresh : Forall (fun r => (r.1 < nextId s)%nat) (inflight s);
  req_ref : forall c, controllerRef s = Some c -> c ∈ (inflight s).*1
}.

(** [searchCities] was only called with long enough queries, and the
    requests in flight and the cache entries all stem from such calls. *)
Record fetched_ok (props : Props) (s : State) : Prop := {
  fet_long :
    Forall (fun q => minQueryLength props <= Z.of_nat (length q)) (fetched s);
  fet_inflight : forall r, r ∈ inflight s -> r.2 ∈ fetched s;
  fet_cache : forall q, is_Some (cacheRef s !! q) -> q ∈ fetched s
}.

(** [loading] is only set while a timer or a request is pending. *)
Definition loading_pending (s : State) : Prop :=
  loading s = true -> timers s <> [] \/ inflight s <> [].

Record Inv2 (props : Props) (s : State) : Prop := {
  inv_closed : closed_unset s;
  inv_timer : one_timer props s;
  inv_requests : requests_ok s;
  inv_fetched : fetched_ok props s;
  inv_loading : loading_pending s
}.

(** Unmounting: the cleanup of the first effect ([abort], [clearTimeout]) and
    the cleanup of the query effect, in the order of their declaration.  The
    latter exists when the last run of the effect armed a timer; otherwise
    [debounceRef] is empty and [clearDebounce] does nothing.  The continuation
    of the aborted request is left in [jobs]. *)
Definition unmount (s : State) : State :=
  let s := abortCurrent s in
  let s := match debounceRef s with
           | Some id => clearTimeout id s
           | None => s
           end in
  clearDebounce s.

(** ** Properties of the suggestion source *)

Lemma startsWith_spec s p :
  startsWith s p = true <-> exists post, s = p ++ post.
Proof.
  revert s; induction p as [|a p IH]; intros s; simpl.
  - destruct s; split; eauto.
  - destruct s as [|b s]; simpl.
    + split; [discriminate | intros [post H]; discriminate].
    + rewrite andb_true_iff, N.eqb_eq, IH. split.
      * intros [-> [post ->]]. eauto.
      * intros [post H]. injection H as -> ->. eauto.
Qed.

Lemma includes_spec s p : includes s p = true <-> Substring p s.
Proof.
  unfold Substring. induction s as [|b s IH]; simpl.
  - rewrite orb_false_r, startsWith_spec. split.
    + intros [post H]. exists [], post. done.
    + intros (pre & post & H). symmetry in H.
      apply app_eq_nil in H as [-> H]. apply app_eq_nil in H as [-> ->].
      exists []. done.
  - rewrite orb_true_iff, startsWith_spec, IH. split.
    + intros [[post H] | (pre & post & H)].
      * exists [], post. done.
      * exists (b :: pre), post. simpl. by f_equal.
    + intros (pre & post & H). destruct pre as [|c pre]; simpl in H.
      * left. eauto.
      * right. injection H as -> ->. eauto.
Qed.

Lemma filter_Keeps {A} (f : A -> bool) (P : A -> Prop) (l : list A) :
  (forall x, f x = true <-> P x) ->
  Keeps P l (filter (fun x => Is_true (f x)) l).
Proof.
  intros Hf. induction l as [|x l IH]; [constructor|].
  destruct (f x) eqn:E.
  - rewrite filter_cons_True by (rewrite E; exact I).
    constructor; [by apply Hf | done].
  - rewrite filter_cons_False by (rewrite E; exact id).
    constructor; [|done]. rewrite <- Hf, E. discriminate.
Qed.

(** C10: for every query [q], [searchCities q] resolves to exactly the entries
    of the fixed eight-city list whose lower-cased form contains the
    lower-cased [q] as a substring, in list order; a query whose lower-cased
    form is empty (the empty query) yields all eight cities. *)
Theorem searchCities_spec (toLowerCase : jsstring -> jsstring)
    (Hempty : toLowerCase [] = []) (q : jsstring) :
  Keeps (fun c => Substring (toLowerCase q) (toLowerCase c))
        Api.data (Api.searchCities toLowerCase q)
  /\ (forall c, c ∈ Api.searchCities toLowerCase q <->
        c ∈ Api.data /\ Substring (toLowerCase q) (toLowerCase c))
  /\ Api.data =
       [ js "Boston"; js "Bogot" ++ [225%N]; js "Buenos Aires"; js "Bangalore";
         js "Berlin"; js "Barcelona"; js "Beijing"; js "Brisbane" ]
  /\ Api.searchCities toLowerCase [] = Api.data.
Proof.
  split; [|split; [|split]].
  - apply filter_Keeps. intros c. apply includes_spec.
  - intros c. unfold Api.searchCities. rewrite list_elem_of_filter.
    rewrite Is_true_true, includes_spec. tauto.
  - reflexivity.
  - unfold Api.searchCities. rewrite Hempty.
    assert (H : forall l : list jsstring,
               filter (fun c => Is_true (includes (toLowerCase c) [])) l = l).
    { induction l as [|x l IH]; [done|].
      rewrite filter_cons_True; [by rewrite IH|].
      destruct (toLowerCase x); exact I. }
    apply H.
Qed.

Lemma searchCities_spec_witness :
  Api.latin1LowerCase [] = [] /\
  Api.searchCities Api.latin1LowerCase (js "BO")
    = [ js "Boston"; js "Bogot" ++ [225%N] ] /\
  Keeps (fun c => Substring (Api.latin1LowerCase (js "BO")) (Api.latin1LowerCase c))
        Api.data (Api.searchCities Api.latin1LowerCase (js "BO")).
Proof.
  split; [reflexivity|]. split; [vm_compute; reflexivity|].
  apply (searchCities_spec Api.latin1LowerCase eq_refl (js "BO")).
Defined.

(** ** Invariants of the component *)

Ltac unfold_ops :=
  unfold select, debounced, settled, effect, clearDebounce, armDebounce,
    fetch, abortCurrent, abort, clearTimeout, cacheSet, consoleError,
    onChange in *.

Ltac crush_state :=
  unfold_ops; simpl in *; repeat (case_match; simpl in *); try done.

Lemma hl_ok_unset s : highlightedIndex s = -1 -> hl_ok s.
Proof.
  intros H. unfold hl_ok. rewrite H.
  destruct (results s); [by left | right; simpl; lia].
Qed.

Lemma hl_ok_same s s' :
  results s' = results s -> highlightedIndex s' = highlightedIndex s ->
  hl_ok s -> hl_ok s'.
Proof. unfold hl_ok. by intros -> ->. Qed.

Lemma fresh_filter (P : nat * jsstring -> Prop) `{!forall t, Decision (P t)}
    s s' :
  timers s' = filter P (timers s) -> (nextId s <= nextId s')%nat ->
  fresh s -> fresh s'.
Proof.
  unfold fresh. intros -> Hn Hf. apply Forall_forall. intros t Ht.
  apply list_elem_of_filter in Ht as [_ Ht].
  rewrite Forall_forall in Hf. specialize (Hf t Ht). lia.
Qed.

Lemma fresh_same s s' :
  timers s' = timers s -> (nextId s <= nextId s')%nat -> fresh s -> fresh s'.
Proof.
  unfold fresh. intros -> Hn H. eapply Forall_impl; [exact H|].
  simpl. intros; lia.
Qed.

(** *** The continuation and the job queue *)

Lemma settled_frame q o s :
  let s' := settled q o s in
  timers s' = timers s /\ nextId s' = nextId s /\ jobs s' = jobs s /\
  inflight s' = inflight s /\ fetched s' = fetched s /\
  query s' = query s /\ isOpen s' = isOpen s /\ selected s' = selected s /\
  debounceRef s' = debounceRef s /\
  highlightedIndex s' = -1 /\ loading s' = false /\ controllerRef s' = None.
Proof. destruct o; crush_state. Qed.

Lemma settled_abort q err s :
  isAbortError err = true ->
  let s' := settled q (Rejected err) s in
  console s' = console s /\ results s' = results s /\
  cacheRef s' = cacheRef s.
Proof. intros H. unfold settled. rewrite H. done. Qed.

Lemma runJobs_nil s : jobs s = [] -> runJobs s = set_jobs [] s.
Proof. unfold runJobs. by intros ->. Qed.

Lemma set_jobs_id s : jobs s = [] -> set_jobs [] s = s.
Proof. destruct s; simpl. by intros ->. Qed.

Lemma fold_settled_frame js s :
  let s' := fold_left (fun st j => settled j.1 j.2 st) js s in
  timers s' = timers s /\ nextId s' = nextId s /\ jobs s' = jobs s /\
  inflight s' = inflight s /\ fetched s' = fetched s /\
  query s' = query s /\ isOpen s' = isOpen s /\ selected s' = selected s /\
  debounceRef s' = debounceRef s /\
  (js <> [] -> highlightedIndex s' = -1).
Proof.
  revert s. induction js as [|j js IH]; intros s; simpl; [done|].
  destruct (IH (settled j.1 j.2 s)) as (-> & -> & -> & -> & -> & -> & -> & -> & -> & Hh).
  destruct (settled_frame j.1 j.2 s) as (-> & -> & -> & -> & -> & -> & -> & -> & -> & Hs & _).
  repeat split; try done.
  intros _. destruct js as [|j' js]; [done | by apply Hh].
Qed.

Lemma runJobs_frame s :
  let s' := runJobs s in
  timers s' = timers s /\ nextId s' = nextId s /\ jobs s' = [] /\
  inflight s' = inflight s /\ fetched s' = fetched s /\
  query s' = query s /\ isOpen s' = isOpen s /\ selected s' = selected s /\
  debounceRef s' = debounceRef s.
Proof.
  unfold runJobs.
  destruct (fold_settled_frame (jobs s) (set_jobs [] s))
    as (-> & -> & -> & -> & -> & -> & -> & -> & -> & _).
  by destruct s.
Qed.

Lemma runJobs_hl s : hl_ok s -> hl_ok (runJobs s).
Proof.
  intros H. destruct (jobs s) as [|j js] eqn:E.
  - rewrite runJobs_nil by done. eapply hl_ok_same; [..|exact H]; by destruct s.
  - apply hl_ok_unset. unfold runJobs. rewrite E.
    by apply fold_settled_frame.
Qed.

(** *** The effect *)

Lemma effect_frame props s :
  let s' := effect props s in
  jobs s' = jobs s /\ highlightedIndex s' = highlightedIndex s /\
  fetched s' = fetched s /\ inflight s' = inflight s /\
  console s' = console s /\ selected s' = selected s /\
  cacheRef s' = cacheRef s /\ query s' = query s /\ isOpen s' = isOpen s /\
  controllerRef s' = controllerRef s.
Proof. crush_state. Qed.

Lemma clearDebounce_fresh s : fresh s -> fresh (clearDebounce s).
Proof.
  intros H. unfold clearDebounce. destruct (debounceRef s) as [id|]; [|done].
  eapply (fresh_filter (fun t => t.1 ≠ id)); [..|exact H]; done.
Qed.

Lemma effect_fresh props s : fresh s -> fresh (effect props s).
Proof.
  intros H.
  apply clearDebounce_fresh in H as Hc.
  unfold effect. case_match.
  - eapply fresh_same; [..|exact Hc]; done.
  - unfold fresh, armDebounce in *. simpl. apply Forall_app. split.
    + eapply Forall_impl; [exact Hc|]. simpl. intros; lia.
    + repeat constructor; simpl; lia.
Qed.

Lemma effect_hl props s : hl_ok s -> hl_ok (effect props s).
Proof.
  intros H. unfold effect. case_match.
  - by left.
  - eapply hl_ok_same; [..|exact H]; crush_state.
Qed.

(** *** The handlers *)

Lemma abortCurrent_frame s :
  let s' := abortCurrent s in
  timers s' = timers s /\ nextId s' = nextId s /\ results s' = results s /\
  highlightedIndex s' = highlightedIndex s /\ query s' = query s /\
  isOpen s' = isOpen s /\ fetched s' = fetched s /\
  console s' = console s /\ selected s' = selected s /\
  cacheRef s' = cacheRef s /\ loading s' = loading s /\
  debounceRef s' = debounceRef s.
Proof. crush_state. Qed.

Lemma select_frame props value s :
  let s' := state_of (select props (Some value) s) in
  timers s' = timers s /\ nextId s' = nextId s /\ results s' = results s /\
  highlightedIndex s' = -1 /\ query s' = value /\ isOpen s' = false /\
  fetched s' = fetched s /\ console s' = console s /\
  cacheRef s' = cacheRef s /\ loading s' = loading s /\
  debounceRef s' = debounceRef s /\
  selected s' =
    (if onSelect props then selected s ++ [Some value] else selected s).
Proof. crush_state. Qed.

Lemma select_fresh props value s : fresh s -> fresh (state_of (select props (Some value) s)).
Proof.
  intros H. destruct (select_frame props value s) as (Et & En & _).
  eapply fresh_same; [exact Et | lia | exact H].
Qed.

Lemma debounced_fresh q s : fresh s -> fresh (debounced q s).
Proof.
  intros H. eapply fresh_same; [..|exact H]; crush_state; lia.
Qed.

Lemma debounced_hl q s : hl_ok s -> hl_ok (debounced q s).
Proof.
  intros H. unfold debounced. case_match.
  - by apply hl_ok_unset.
  - eapply hl_ok_same; [..|exact H]; crush_state.
Qed.

Lemma option_at_lt idx s item :
  option_at idx s = Some item -> (idx < length (results s))%nat.
Proof.
  unfold option_at. case_match; [|done]. apply lookup_lt_Some.
Qed.

Lemma onKeyDown_arrow_hl props key s s' :
  key = ArrowDown \/ key = ArrowUp ->
  onKeyDown props key s = Kept s' -> hl_ok s -> hl_ok s'.
Proof.
  intros Hk E H.
  assert (Hn : Z.of_nat (length (results s)) <> 0 ->
               -1 <= highlightedIndex s < Z.of_nat (length (results s))).
  { destruct H as [H|H]; [rewrite H; simpl; lia | done]. }
  destruct Hk as [-> | ->]; simpl in E;
    destruct (isOpen s); simpl in E;
    destruct (Z.eqb_spec (Z.of_nat (length (results s))) 0) as [E0|E0];
    injection E as <-;
    try (eapply hl_ok_same; [..|exact H]; done);
    right; simpl; specialize (Hn E0); repeat case_match; lia.
Qed.

Lemma select_Kept props v s s' :
  select props v s = Kept s' ->
  exists value, v = Some value /\
    s' = state_of (select props (Some value) s).
Proof. destruct v as [value|]; [intros [= <-]; eauto | discriminate]. Qed.

Lemma onKeyDown_Enter props s s' :
  onKeyDown props Enter s = Kept s' ->
  s' = s \/
  exists value, isOpen s = true /\ 0 <= highlightedIndex s /\
    results s !! Z.to_nat (highlightedIndex s) = Some value /\
    s' = state_of (select props (Some value) s).
Proof.
  simpl. destruct (isOpen s); simpl; [|intros [= <-]; by left].
  destruct (Z.leb_spec 0 (highlightedIndex s)); [|intros [= <-]; by left].
  intros (value & Hv & ->)%select_Kept. right. by exists value.
Qed.

Lemma handle_inv props ev s s' :
  handle props ev s = Kept s' -> fresh s -> hl_ok s ->
  fresh s' /\ hl_ok s'.
Proof.
  intros E Hf Hh. destruct ev as [raw|key|idx|idx| |id|c o]; simpl in E.
  - injection E as <-. split.
    + eapply fresh_same; [..|exact Hf]; done.
    + eapply hl_ok_same; [..|exact Hh]; done.
  - split.
    + destruct key;
        try (apply onKeyDown_Enter in E
               as [-> | (value & _ & _ & _ & ->)];
             [done | by apply select_fresh]);
        simpl in E; repeat case_match; simplify_eq;
        eapply fresh_same; [..|exact Hf]; done.
    + destruct key.
      * eapply (onKeyDown_arrow_hl props ArrowDown); eauto.
      * eapply (onKeyDown_arrow_hl props ArrowUp); eauto.
      * apply onKeyDown_Enter in E as [-> | (value & _ & _ & _ & ->)];
          [done|]. apply hl_ok_unset. apply select_frame.
      * simpl in E. simplify_eq. by apply hl_ok_unset.
      * simpl in E. by simplify_eq.
  - destruct (option_at idx s) as [item|]; simpl in E; simplify_eq; [|done].
    split.
    + by apply select_fresh.
    + apply hl_ok_unset. apply select_frame.
  - destruct (option_at idx s) as [item|] eqn:Ei; simplify_eq; [|done]. split.
    + eapply fresh_same; [..|exact Hf]; done.
    + right. simpl. apply option_at_lt in Ei. lia.
  - simplify_eq. split.
    + eapply fresh_same; [..|exact Hf]; done.
    + by apply hl_ok_unset.
  - destruct (list_find _ _) as [[? [? q]]|]; simplify_eq; [|done].
    assert (Hc : fresh (clearTimeout id s)).
    { eapply (fresh_filter (fun t => t.1 ≠ id)); [..|exact Hf]; done. }
    split; [by apply debounced_fresh|].
    apply debounced_hl. eapply hl_ok_same; [..|exact Hh]; done.
  - destruct (list_find _ _) as [[? [? q]]|]; simplify_eq; [|done]. split.
    + eapply fresh_same; [..|exact Hf]; destruct o; crush_state.
    + apply hl_ok_unset. destruct o; crush_state.
Qed.

Lemma commit_inv props before s :
  fresh s -> hl_ok s -> Inv (commit props before s).
Proof.
  intros Hf Hh. unfold commit.
  set (s1 := if decide (query s = query before) then s else effect props s).
  assert (fresh s1 /\ hl_ok s1) as [Hf1 Hh1].
  { subst s1. case_decide; [done|].
    split; [by apply effect_fresh | by apply effect_hl]. }
  destruct (runJobs_frame s1) as (Et & En & Ej & _).
  split; [done | | by apply runJobs_hl].
  eapply fresh_same; [exact Et | lia | exact Hf1].
Qed.

Lemma step_inv props ev s s' :
  step props ev s = Some s' -> Inv s -> Inv s'.
Proof.
  unfold step. intros E [_ Hf Hh].
  destruct (handle props ev s) as [s1|s1] eqn:E1; [|done].
  injection E as <-.
  destruct (handle_inv _ _ _ _ E1 Hf Hh). by apply commit_inv.
Qed.

Lemma mount_inv props : Inv (mount props).
Proof.
  unfold mount. split.
  - by rewrite (proj1 (effect_frame props initial)).
  - apply effect_fresh. constructor.
  - apply effect_hl. by left.
Qed.

Lemma run_inv props evs s s' :
  run props evs s = Some s' -> Inv s -> Inv s'.
Proof.
  revert s. induction evs as [|ev evs IH]; intros s; simpl.
  - by intros [= <-].
  - destruct (step props ev s) as [s1|] eqn:E; [|done].
    intros Hr Hi. eapply IH; [exact Hr|]. eapply step_inv; eauto.
Qed.

Lemma reachable_inv props s : reachable props s -> Inv s.
Proof.
  intros [evs H]. eapply run_inv; [exact H | apply mount_inv].
Qed.

(** ** Failures of the fetch *)

Lemma step_settle props s c o :
  jobs s = [] ->
  step props (Settle c o) s =
    Some match list_find (fun r => r.1 = c) (inflight s) with
         | Some (_, (_, q)) =>
             settled q o (set_inflight (filter (fun r => r.1 ≠ c) (inflight s)) s)
         | None => s
         end.
Proof.
  intros Hj. unfold step, commit. simpl.
  destruct (list_find _ _) as [[? [? q]]|]; simpl.
  - rewrite decide_True by (destruct o; crush_state).
    rewrite runJobs_nil by (destruct o; crush_state).
    f_equal. apply set_jobs_id. destruct o; crush_state.
  - rewrite decide_True by done. rewrite runJobs_nil by done.
    f_equal. by apply set_jobs_id.
Qed.

(** C8: a fetch failing with the cancellation signal is suppressed.  Whether
    the rejection reaches the component as the settlement of a request or
    through [abort()] called on its controller, nothing is written to the
    error sink, the component goes on, and [results] (with the cache) is as
    it was. *)
Theorem abort_error_suppressed props s c err :
  reachable props s -> isAbortError err = true ->
  (exists s', step props (Settle c (Rejected err)) s = Some s' /\
     console s' = console s /\ results s' = results s /\
     cacheRef s' = cacheRef s /\ selected s' = selected s /\
     query s' = query s /\ isOpen s' = isOpen s)
  /\ (let s' := runJobs (abort c s) in
      console s' = console s /\ results s' = results s /\
      cacheRef s' = cacheRef s).
Proof.
  intros Hr He. apply reachable_inv in Hr as [Hj _ _]. split.
  - eexists. split; [by apply step_settle|].
    destruct (list_find _ _) as [[? [? q]]|]; [|done].
    unfold settled. rewrite He. done.
  - unfold abort. destruct (list_find _ _) as [[? [? q]]|].
    + unfold runJobs. simpl. rewrite Hj. done.
    + simpl. rewrite runJobs_nil by done. done.
Qed.

Lemma abort_error_suppressed_witness :
  exists s', step defaultProps (Settle 2 (Rejected abortError))
               (after defaultProps [Change (js "b"); TimerFire 1]) = Some s' /\
    console s' = [] /\ results s' = [].
Proof.
  destruct (abort_error_suppressed defaultProps
              (after defaultProps [Change (js "b"); TimerFire 1]) 2 abortError)
    as [(s' & Hs & Hc & Hres & _) _].
  - exists [Change (js "b"); TimerFire 1]. vm_compute. reflexivity.
  - reflexivity.
  - exists s'. split; [exact Hs|]. rewrite Hc, Hres. split; reflexivity.
Defined.

(** C9: a fetch failing with anything but the cancellation signal is
    reported to [console.error], [loading] is cleared, and [results] and the
    cache are left as they were. *)
Theorem fetch_failure_reported props s c q err :
  reachable props s -> (c, q) ∈ inflight s -> isAbortError err = false ->
  exists s', step props (Settle c (Rejected err)) s = Some s' /\
    console s' = console s ++ [err] /\ loading s' = false /\
    results s' = results s /\ cacheRef s' = cacheRef s.
Proof.
  intros Hr Hin He. apply reachable_inv in Hr as [Hj _ _].
  eexists. split; [by apply step_settle|].
  destruct (list_find_elem_of (fun r : nat * jsstring => r.1 = c)
              (inflight s) (c, q) Hin eq_refl) as [[i [c' q']] ->].
  unfold settled. rewrite He. done.
Qed.

Lemma fetch_failure_reported_witness :
  exists s', step defaultProps (Settle 2 (Rejected (OtherError (js "offline"))))
               (after defaultProps [Change (js "b"); TimerFire 1]) = Some s' /\
    console s' = [OtherError (js "offline")] /\ loading s' = false.
Proof.
  destruct (fetch_failure_reported defaultProps
              (after defaultProps [Change (js "b"); TimerFire 1]) 2 (js "b")
              (OtherError (js "offline")))
    as (s' & Hs & Hc & Hl & _).
  - exists [Change (js "b"); TimerFire 1]. vm_compute. reflexivity.
  - vm_compute. apply list_elem_of_here.
  - reflexivity.
  - exists s'. auto.
Defined.

(** ** Runs on which the code departs from its description *)

(** C1 (not met by the code): at most one request is live and a new fetch
    cancels the pending one.  With keys at 0, 350 and 700 ms the second fetch
    aborts the first, whose continuation then clears [controllerRef] although
    it already names the second controller; the third fetch finds the ref
    empty, aborts nothing, and two requests are in flight. *)
Theorem paced_typing_two_requests_live :
  timed defaultProps [0; 300; 350; 650; 700; 1000] paced_typing = true
  /\ (fun s => (inflight s, controllerRef s))
    <$> run defaultProps (take 4 paced_typing) (mount defaultProps)
    = Some ([(4%nat, js "bo")], None)
  /\ (fun s => (inflight s, fetched s, console s))
       <$> run defaultProps paced_typing (mount defaultProps)
       = Some ([(4%nat, js "bo"); (6%nat, js "bos")],
               [js "b"; js "bo"; js "bos"], []).
Proof. repeat split; vm_compute; reflexivity. Qed.

(** C2 (not met by the code): the highlight is in bounds or -1, and is -1
    after every change of [results].  The short-query branch of the effect
    empties [results] and leaves the highlight: after "b" has resolved, one
    ArrowDown and clearing the input, [results] is empty and the highlight is
    0; Enter then selects [results[0]], which is [undefined]. *)
Theorem highlight_survives_clearing :
  let evs := typed_b ++ [KeyDown ArrowDown; Change []] in
  timed defaultProps [0; 300; 700; 800; 900] evs = true
  /\ (fun s => (results s, highlightedIndex s, isOpen s))
       <$> run defaultProps evs (mount defaultProps) = Some ([], 0, true)
  /\ ~ highlight_in_bounds (after defaultProps evs)
  /\ run defaultProps (evs ++ [KeyDown Enter]) (mount defaultProps) = None.
Proof.
  split; [vm_compute; reflexivity|]. split; [vm_compute; reflexivity|].
  split; [|vm_compute; reflexivity].
  intros [H|[_ H]]; vm_compute in H; discriminate.
Qed.

(** C4 (not met by the code): a too-short input clears [results], the
    debounce timer and [loading], and cancels the request in flight.  The
    short-query branch never touches [controllerRef]: "b" is typed, its fetch
    is issued, the input is cleared, and the request is still live; when it
    resolves its cities are displayed for the empty query. *)
Theorem short_query_keeps_request :
  let evs := [Change (js "b"); TimerFire 1; Change []] in
  let late := evs ++ [Settle 2 (Resolved (source (js "b")))] in
  timed defaultProps [0; 300; 400; 700] late = true
  /\ (fun s => (results s, loading s, timers s, inflight s, controllerRef s))
       <$> run defaultProps evs (mount defaultProps)
       = Some ([], false, [], [(2%nat, js "b")], Some 2%nat)
  /\ (fun s => (query s, results s))
       <$> run defaultProps late (mount defaultProps) = Some ([], Api.data).
Proof. repeat split; vm_compute; reflexivity. Qed.

(** ** Submitting a query *)

Lemma commit_nojobs props before s :
  jobs s = [] ->
  commit props before s =
    if decide (query s = query before) then s else effect props s.
Proof.
  intros Hj. unfold commit. case_decide.
  - rewrite runJobs_nil by done. by apply set_jobs_id.
  - assert (Hj' : jobs (effect props s) = []).
    { by rewrite (proj1 (effect_frame props s)). }
    rewrite runJobs_nil by done. by apply set_jobs_id.
Qed.

Lemma step_change props s raw :
  jobs s = [] -> raw <> query s ->
  step props (Change raw) s = Some (effect props (onChange raw s)).
Proof.
  intros Hj Hne. unfold step. simpl. f_equal.
  rewrite commit_nojobs by done. by rewrite decide_False.
Qed.

Lemma list_find_fresh (l : list (nat * jsstring)) n q :
  Forall (fun t => (t.1 < n)%nat) l ->
  list_find (fun t => t.1 = n) (l ++ [(n, q)]) = Some (length l, (n, q)).
Proof.
  induction 1 as [|t l Ht _ IH]; simpl.
  - by rewrite decide_True.
  - rewrite decide_False by lia. by rewrite IH.
Qed.

(** A submission of a long enough query arms a timer carrying the trimmed
    query and reports loading; nothing is fetched. *)
Lemma effect_long props s :
  minQueryLength props <= Z.of_nat (length (trim (query s))) ->
  let s' := effect props s in
  loading s' = true /\ debounceRef s' = Some (nextId s) /\
  timers s' = timers (clearDebounce s) ++ [(nextId s, trim (query s))] /\
  nextId s' = S (nextId s) /\ results s' = results s.
Proof.
  intros Hlen. unfold effect.
  replace (query (clearDebounce s)) with (query s) by crush_state.
  destruct (Z.ltb_spec (Z.of_nat (length (trim (query s))))
              (minQueryLength props)); [lia|].
  crush_state.
Qed.

(** What the short-query branch does, and what it leaves alone: the result
    list, the loading flag and the debounce timer are cleared; the highlight,
    the controller and the request in flight are as before. *)
Lemma short_query_clears props s raw :
  reachable props s -> raw <> query s ->
  Z.of_nat (length (trim raw)) < minQueryLength props ->
  exists s', step props (Change raw) s = Some s' /\
    results s' = [] /\ loading s' = false /\ debounceRef s' = None /\
    (forall id, debounceRef s = Some id -> id ∉ (timers s').*1) /\
    fetched s' = fetched s /\
    highlightedIndex s' = highlightedIndex s /\
    inflight s' = inflight s /\ controllerRef s' = controllerRef s.
Proof.
  intros Hr Hne Hlen. apply reachable_inv in Hr as [Hj _ _].
  eexists. split; [by apply step_change|].
  unfold effect.
  replace (query (clearDebounce (onChange raw s))) with raw by crush_state.
  destruct (Z.ltb_spec (Z.of_nat (length (trim raw))) (minQueryLength props));
    [|lia].
  repeat split; try (by crush_state).
  intros id Hid. unfold clearDebounce, onChange. simpl. rewrite Hid. simpl.
  intros Hin. apply list_elem_of_fmap in Hin as ([id' q] & -> & Hin).
  apply list_elem_of_filter in Hin as [Hin _]. by apply Hin.
Qed.

(** C3 (as stated) fails: with "b" in the cache, submitting "b" again sets
    [loading] for the length of the debounce. *)
Lemma cached_query_reports_loading :
  let evs := typed_b ++ [Change (js "bo"); Change (js "b")] in
  timed defaultProps [0; 300; 700; 800; 900] evs = true
  /\ (fun s => (cacheRef s !! js "b", trim (query s), loading s, timers s))
       <$> run defaultProps evs (mount defaultProps)
       = Some (Some Api.data, js "b", true, [(4%nat, js "b")]).
Proof. split; vm_compute; reflexivity. Qed.

(** ** Keyboard navigation *)

Lemma step_arrow props key s :
  key = ArrowDown \/ key = ArrowUp -> Inv s ->
  exists s', onKeyDown props key s = Kept s' /\
    step props (KeyDown key) s = Some s' /\ Inv s' /\
    isOpen s' = true /\ results s' = results s.
Proof.
  intros Hk Hi.
  assert (exists s', onKeyDown props key s = Kept s' /\ query s' = query s /\
            jobs s' = jobs s /\ isOpen s' = true /\ results s' = results s)
    as (s' & E & Hq & Hj & Ho & Hr).
  { destruct Hk as [-> | ->]; simpl; destruct (isOpen s) eqn:Eo; simpl;
      case_match; eexists; (split; [reflexivity|]); done. }
  assert (Hs : step props (KeyDown key) s = Some s').
  { unfold step. simpl. rewrite E. f_equal.
    rewrite commit_nojobs by (rewrite Hj; apply Hi).
    by rewrite decide_True. }
  exists s'. split; [done|]. split; [done|].
  split; [by eapply step_inv | done].
Qed.

Lemma arrow_down_highlight props s s' :
  onKeyDown props ArrowDown s = Kept s' -> hl_ok s ->
  let n := Z.of_nat (length (results s)) in
  (n = 0 -> highlightedIndex s' = highlightedIndex s) /\
  (n <> 0 -> highlightedIndex s' = (highlightedIndex s + 1) mod n).
Proof.
  intros E Hh n. simpl in E.
  replace (results (if isOpen s then s else set_isOpen true s))
    with (results s) in E by (by destruct (isOpen s)).
  replace (highlightedIndex (if isOpen s then s else set_isOpen true s))
    with (highlightedIndex s) in E by (by destruct (isOpen s)).
  fold n in E. destruct (Z.eqb_spec n 0) as [E0|E0]; injection E as <-.
  - split; [|done]. intros _. by destruct (isOpen s).
  - split; [done|]. intros _. simpl.
    destruct Hh as [Hh|Hh]; [subst n; rewrite Hh in E0; done|]. fold n in Hh.
    destruct (Z.ltb_spec (highlightedIndex s) (n - 1)).
    + symmetry. apply Z.mod_small. lia.
    + replace (highlightedIndex s + 1) with n by lia.
      symmetry. apply Z_mod_same_full.
Qed.

Lemma arrow_up_highlight props s s' :
  onKeyDown props ArrowUp s = Kept s' -> hl_ok s ->
  let n := Z.of_nat (length (results s)) in
  (n = 0 -> highlightedIndex s' = highlightedIndex s) /\
  (n <> 0 ->
   highlightedIndex s' =
     if highlightedIndex s =? -1 then n - 1 else (highlightedIndex s - 1) mod n).
Proof.
  intros E Hh n. simpl in E.
  replace (results (if isOpen s then s else set_isOpen true s))
    with (results s) in E by (by destruct (isOpen s)).
  replace (highlightedIndex (if isOpen s then s else set_isOpen true s))
    with (highlightedIndex s) in E by (by destruct (isOpen s)).
  fold n in E. destruct (Z.eqb_spec n 0) as [E0|E0]; injection E as <-.
  - split; [|done]. intros _. by destruct (isOpen s).
  - split; [done|]. intros _. simpl.
    destruct Hh as [Hh|Hh]; [subst n; rewrite Hh in E0; done|]. fold n in Hh.
    destruct (Z.eqb_spec (highlightedIndex s) (-1)) as [E1|E1].
    + rewrite E1. reflexivity.
    + destruct (Z.leb_spec (highlightedIndex s) 0).
      * replace (highlightedIndex s) with 0 by lia.
        apply (Z.mod_unique_pos _ _ (-1)); lia.
      * symmetry. apply Z.mod_small. lia.
Qed.

Lemma arrow_down_iter props k s :
  Inv s -> results s <> [] ->
  exists s', run props (replicate k (KeyDown ArrowDown)) s = Some s' /\
    results s' = results s /\
    highlightedIndex s' =
      match k with
      | O => highlightedIndex s
      | S _ => (highlightedIndex s + Z.of_nat k) mod Z.of_nat (length (results s))
      end.
Proof.
  revert s. induction k as [|k IH]; intros s Hi Hne; [by exists s|].
  destruct (step_arrow props ArrowDown s (or_introl eq_refl) Hi)
    as (s1 & E & Hs & Hi1 & _ & Hr).
  destruct (arrow_down_highlight props s s1 E (inv_hl _ Hi)) as [_ Hh].
  assert (Hn : Z.of_nat (length (results s)) <> 0).
  { destruct (results s); [done | simpl; lia]. }
  specialize (Hh Hn).
  destruct (IH s1 Hi1) as (s' & Hrun & Hr' & Hh'); [by rewrite Hr|].
  exists s'. simpl. rewrite Hs. split; [done|]. split; [congruence|].
  rewrite Hh'. destruct k as [|k]; [rewrite Hh; f_equal; lia|].
  rewrite Hr, Hh, Zplus_mod_idemp_l. f_equal. lia.
Qed.

(** C6 (as amended): ArrowDown leaves the panel open, whether it was open or
    closed; with [N > 0] results the highlight becomes [(highlight+1) mod N],
    so that from -1 repeated presses visit 0, 1, ..., N-1, 0, ...; with no
    results the highlight stays as it is. *)
Theorem arrow_down_spec props s :
  reachable props s ->
  let n := Z.of_nat (length (results s)) in
  (exists s', step props (KeyDown ArrowDown) s = Some s' /\
     isOpen s' = true /\ results s' = results s /\
     (n = 0 -> highlightedIndex s' = highlightedIndex s) /\
     (n <> 0 -> highlightedIndex s' = (highlightedIndex s + 1) mod n))
  /\ (n <> 0 -> highlightedIndex s = -1 -> forall k,
      highlightedIndex <$> run props (replicate (S k) (KeyDown ArrowDown)) s
        = Some (Z.of_nat k mod n)).
Proof.
  intros Hr n. apply reachable_inv in Hr as Hi. split.
  - destruct (step_arrow props ArrowDown s (or_introl eq_refl) Hi)
      as (s' & E & Hs & _ & Ho & Hres).
    exists s'. repeat split; try done;
      by apply (arrow_down_highlight props s s' E (inv_hl _ Hi)).
  - intros Hn Hh k.
    destruct (arrow_down_iter props (S k) s Hi) as (s' & -> & _ & Hk).
    { intros E. apply Hn. subst n. by rewrite E. }
    simpl. rewrite Hk, Hh. do 2 f_equal. lia.
Qed.

Lemma arrow_down_spec_witness :
  highlightedIndex
    <$> run defaultProps (replicate 10 (KeyDown ArrowDown))
          (after defaultProps (typed_b ++ [KeyDown Escape]))
  = Some 1.
Proof.
  destruct (arrow_down_spec defaultProps
              (after defaultProps (typed_b ++ [KeyDown Escape])))
    as [_ H].
  - exists (typed_b ++ [KeyDown Escape]). vm_compute. reflexivity.
  - exact (H ltac:(vm_compute; discriminate) eq_refl 9%nat).
Defined.

(** C6 (as stated) fails: after Escape the panel is closed with eight
    results and no highlight; ArrowDown opens it and moves the highlight
    to 0. *)
Lemma arrow_down_closed_moves_highlight :
  timed defaultProps [0; 300; 700; 800; 900]
    (typed_b ++ [KeyDown Escape; KeyDown ArrowDown]) = true
  /\ (fun s => (isOpen s, length (results s), highlightedIndex s))
    <$> run defaultProps (typed_b ++ [KeyDown Escape]) (mount defaultProps)
    = Some (false, 8%nat, -1)
  /\ (fun s => (isOpen s, highlightedIndex s))
       <$> run defaultProps (typed_b ++ [KeyDown Escape; KeyDown ArrowDown])
             (mount defaultProps)
       = Some (true, 0).
Proof. repeat split; vm_compute; reflexivity. Qed.

(** C7 (as amended): with [N > 0] results ArrowUp moves the highlight to
    [(highlight-1) mod N] from a highlighted option, wrapping from the first
    to the last, and to the last option [N-1] from the unset highlight -1. *)
Theorem arrow_up_spec props s :
  reachable props s ->
  let n := Z.of_nat (length (results s)) in
  exists s', step props (KeyDown ArrowUp) s = Some s' /\
    isOpen s' = true /\ results s' = results s /\
    (n <> 0 ->
     highlightedIndex s' =
       if highlightedIndex s =? -1 then n - 1
       else (highlightedIndex s - 1) mod n).
Proof.
  intros Hr n. apply reachable_inv in Hr as Hi.
  destruct (step_arrow props ArrowUp s (or_intror eq_refl) Hi)
    as (s' & E & Hs & _ & Ho & Hres).
  exists s'. repeat split; try done.
  by apply (arrow_up_highlight props s s' E (inv_hl _ Hi)).
Qed.

Lemma arrow_up_spec_witness :
  exists s', step defaultProps (KeyDown ArrowUp)
               (after defaultProps (typed_b ++ [KeyDown ArrowDown])) = Some s' /\
    highlightedIndex s' = 7.
Proof.
  destruct (arrow_up_spec defaultProps
              (after defaultProps (typed_b ++ [KeyDown ArrowDown])))
    as (s' & Hs & _ & _ & Hh).
  - exists (typed_b ++ [KeyDown ArrowDown]). vm_compute. reflexivity.
  - exists s'. split; [exact Hs|]. apply Hh. vm_compute. discriminate.
Defined.

(** C7 (as stated) fails at the unset highlight: with eight results ArrowUp
    moves -1 to 7, the last option, while [(-1 - 1) mod 8] is 6. *)
Lemma arrow_up_from_unset :
  timed defaultProps [0; 300; 700; 800] (typed_b ++ [KeyDown ArrowUp]) = true
  /\ (fun s => (length (results s), highlightedIndex s))
       <$> run defaultProps typed_b (mount defaultProps) = Some (8%nat, -1)
  /\ highlightedIndex
       <$> run defaultProps (typed_b ++ [KeyDown ArrowUp]) (mount defaultProps)
       = Some 7
  /\ (-1 - 1) mod 8 = 6.
Proof. repeat split; vm_compute; reflexivity. Qed.

(** ** Committing a selection *)

Lemma handle_commits props ev s value :
  commits ev s value -> handle props ev s = select props (Some value) s.
Proof.
  intros [(-> & Ho & Hh & Hv) | (idx & -> & Hv)]; simpl.
  - rewrite Ho, Hv. simpl. by destruct (Z.leb_spec 0 (highlightedIndex s)); [|lia].
  - by rewrite Hv.
Qed.

Lemma runJobs_unset s : highlightedIndex s = -1 -> highlightedIndex (runJobs s) = -1.
Proof.
  intros H. unfold runJobs. destruct (jobs s) as [|j js] eqn:E.
  - by destruct s.
  - by apply fold_settled_frame.
Qed.

(** C5 (as amended): committing a selection stores the value in [query],
    closes the panel, unsets the highlight and calls [onSelect]; no fetch is
    issued by the commit itself.  The effect, keyed on [query] alone, takes
    the stored value for a new query whenever it differs from the text
    typed: if long enough, a debounce timer carrying its trimmed form is
    armed (and [loading] is set when no request had to be aborted), otherwise
    the pending timer is dropped.  Only a value equal to the text leaves the
    timers alone. *)
Theorem commit_resubmits props ev s value :
  reachable props s -> commits ev s value ->
  exists s', step props ev s = Some s' /\
    query s' = value /\ isOpen s' = false /\ highlightedIndex s' = -1 /\
    selected s' =
      (if onSelect props then selected s ++ [Some value] else selected s) /\
    fetched s' = fetched s /\
    (value = query s -> timers s' = timers s /\ debounceRef s' = debounceRef s) /\
    (value <> query s ->
     minQueryLength props <= Z.of_nat (length (trim value)) ->
     debounceRef s' = Some (nextId s) /\ (nextId s, trim value) ∈ timers s' /\
     (controllerRef s = None -> loading s' = true)) /\
    (value <> query s ->
     Z.of_nat (length (trim value)) < minQueryLength props ->
     debounceRef s' = None).
Proof.
  intros Hr Hc. apply reachable_inv in Hr as [Hj _ _].
  set (sel := state_of (select props (Some value) s)).
  destruct (select_frame props value s)
    as (Ht & Hn & _ & Hh & Hq & Ho & Hf & _ & _ & Hl & Hd & Hs).
  fold sel in Ht, Hn, Hh, Hq, Ho, Hf, Hl, Hd, Hs.
  exists (commit props s sel). split.
  { unfold step. by rewrite (handle_commits props ev s value Hc). }
  unfold commit.
  set (x := if decide (query sel = query s) then sel else effect props sel).
  assert (Hx : query x = value /\ isOpen x = false /\ highlightedIndex x = -1
               /\ selected x = selected sel /\ fetched x = fetched s).
  { subst x. case_decide; [done|].
    destruct (effect_frame props sel) as (_ & -> & -> & _ & _ & -> & _ & -> & -> & _).
    done. }
  destruct Hx as (Hxq & Hxo & Hxh & Hxs & Hxf).
  destruct (runJobs_frame x) as (Rt & _ & _ & _ & Rf & Rq & Ro & Rs & Rd).
  rewrite Rq, Ro, Rs, Rf, Rt, Rd.
  split; [done|]. split; [done|]. split; [by apply runJobs_unset|].
  split; [congruence|]. split; [done|]. split; [|split].
  - intros E. subst x. rewrite decide_True by congruence. done.
  - intros Hne Hlen. subst x. rewrite decide_False by congruence.
    rewrite <- Hq in Hlen.
    destruct (effect_long props sel Hlen) as (El & Ed & Et & _).
    rewrite Ed, Et, Hn, Hq. split; [done|]. split.
    + apply elem_of_app. right. apply list_elem_of_here.
    + intros Hnone.
      assert (Hjs : jobs (effect props sel) = []).
      { rewrite (proj1 (effect_frame props sel)). subst sel.
        unfold select, abortCurrent. simpl. rewrite Hnone.
        by destruct (onSelect props). }
      rewrite runJobs_nil by done. by destruct (effect props sel).
  - intros Hne Hlen. subst x. rewrite decide_False by congruence.
    unfold effect. rewrite <- Hq in Hlen.
    replace (query (clearDebounce sel)) with (query sel) by crush_state.
    destruct (Z.ltb_spec (Z.of_nat (length (trim (query sel))))
                (minQueryLength props)); [|lia].
    crush_state.
Qed.

Lemma commit_resubmits_witness :
  exists s', step defaultProps (KeyDown Enter)
               (after defaultProps (typed_b ++ [KeyDown ArrowDown])) = Some s' /\
    query s' = js "Boston" /\ isOpen s' = false /\
    debounceRef s' = Some 3%nat /\ (3%nat, js "Boston") ∈ timers s' /\
    loading s' = true.
Proof.
  destruct (commit_resubmits defaultProps (KeyDown Enter)
              (after defaultProps (typed_b ++ [KeyDown ArrowDown]))
              (js "Boston"))
    as (s' & Hs & Hq & Ho & _ & _ & _ & _ & Hlong & _).
  - exists (typed_b ++ [KeyDown ArrowDown]). vm_compute. reflexivity.
  - left. repeat split; vm_compute; congruence.
  - destruct Hlong as (Hd & Ht & Hl);
      [vm_compute; discriminate | vm_compute; discriminate |].
    exists s'. split; [exact Hs|]. split; [exact Hq|]. split; [exact Ho|].
    split; [exact Hd|]. split; [exact Ht|]. apply Hl. reflexivity.
Defined.

(** C5 (as stated) fails: Enter on "Boston" after typing "b" sets [loading]
    and arms a debounce timer for "Boston"; when it fires, [searchCities] is
    called a second time. *)
Lemma commit_starts_query :
  timed defaultProps [0; 300; 700; 800; 900; 1200]
    (typed_b ++ [KeyDown ArrowDown; KeyDown Enter; TimerFire 3]) = true
  /\ (fun s => (query s, isOpen s, loading s, timers s, fetched s))
    <$> run defaultProps (typed_b ++ [KeyDown ArrowDown; KeyDown Enter])
          (mount defaultProps)
    = Some (js "Boston", false, true, [(3%nat, js "Boston")], [js "b"])
  /\ (fun s => (fetched s, inflight s))
       <$> run defaultProps
             (typed_b ++ [KeyDown ArrowDown; KeyDown Enter; TimerFire 3])
             (mount defaultProps)
       = Some ([js "b"; js "Boston"], [(4%nat, js "Boston")]).
Proof. repeat split; vm_compute; reflexivity. Qed.

(** ** The shape of a turn *)

Lemma step_handle props ev s s' :
  step props ev s = Some s' ->
  exists s1, handle props ev s = Kept s1 /\ s' = commit props s s1.
Proof.
  unfold step. destruct (handle props ev s) as [s1|]; [|done].
  intros [= <-]. eauto.
Qed.

Lemma same_core_refl s : same_core s s.
Proof. by repeat split. Qed.

Lemma fold_settled_cleared js s :
  js <> [] ->
  let s' := fold_left (fun st j => settled j.1 j.2 st) js s in
  loading s' = false /\ controllerRef s' = None /\ highlightedIndex s' = -1.
Proof.
  revert s. induction js as [|j js IH]; intros s Hne; [done|]. simpl.
  destruct js as [|j' js].
  - simpl. destruct (settled_frame j.1 j.2 s) as (_ & _ & _ & _ & _ & _ & _ & _ & _ & ? & ? & ?).
    done.
  - by apply IH.
Qed.

Lemma runJobs_none s : jobs s = [] -> runJobs s = s.
Proof. intros H. rewrite runJobs_nil by done. by apply set_jobs_id. Qed.

Lemma runJobs_cleared s :
  jobs s <> [] ->
  loading (runJobs s) = false /\ controllerRef (runJobs s) = None /\
  highlightedIndex (runJobs s) = -1.
Proof. intros H. unfold runJobs. by apply fold_settled_cleared. Qed.

Lemma fold_settled_aborts js s :
  Forall (fun j : jsstring * Outcome => j.2 = Rejected abortError) js ->
  let s' := fold_left (fun st j => settled j.1 j.2 st) js s in
  cacheRef s' = cacheRef s /\ results s' = results s /\
  console s' = console s.
Proof.
  intros H. revert s. induction H as [|[q o] js Ho _ IH]; intros s; [done|].
  simpl in *. subst o. destruct (IH (settled q (Rejected abortError) s))
    as (-> & -> & ->).
  by destruct (settled_abort q abortError s eq_refl) as (? & ? & ?).
Qed.

Lemma runJobs_aborts s :
  jobs_aborts s ->
  cacheRef (runJobs s) = cacheRef s /\ results (runJobs s) = results s /\
  console (runJobs s) = console s.
Proof.
  intros H. unfold runJobs.
  destruct (fold_settled_aborts (jobs s) (set_jobs [] s) H) as (-> & -> & ->).
  by destruct s.
Qed.

Lemma abortCurrent_shape s :
  jobs s = [] ->
  controllerRef (abortCurrent s) = controllerRef s /\
  ((inflight (abortCurrent s) = inflight s /\ jobs (abortCurrent s) = [] /\
    forall c, controllerRef s = Some c -> c ∉ (inflight s).*1)
   \/ exists c q, controllerRef s = Some c /\ c ∈ (inflight s).*1 /\
        inflight (abortCurrent s) = filter (fun r => r.1 ≠ c) (inflight s) /\
        jobs (abortCurrent s) = [(q, Rejected abortError)]).
Proof.
  intros Hj. unfold abortCurrent, abort.
  destruct (controllerRef s) as [c|] eqn:Ec; [|split; [done|left; done]].
  destruct (list_find _ _) as [[i [c' q]]|] eqn:Ef; simpl.
  - split; [done|]. right. exists c, q. rewrite Hj.
    apply list_find_Some in Ef as (Hi & Hc & _). simpl in Hc. subst c'.
    repeat split; try done.
    apply list_elem_of_fmap. exists (c, q). split; [done|].
    by eapply list_elem_of_lookup_2.
  - split; [done|]. left. repeat split; try done.
    intros c0 [= <-] Hin. apply list_elem_of_fmap in Hin as ([c1 q] & E & Hin).
    simpl in E. subst c1.
    eapply list_find_None in Ef. rewrite Forall_forall in Ef.
    by apply (Ef _ Hin).
Qed.

Lemma select_shape props value s :
  let s1 := state_of (select props (Some value) s) in
  controllerRef s1 = controllerRef (abortCurrent s) /\
  inflight s1 = inflight (abortCurrent s) /\
  jobs s1 = jobs (abortCurrent s).
Proof. destruct (onSelect props) eqn:E; crush_state. Qed.

Lemma handle_shape props ev s s1 :
  handle props ev s = Kept s1 ->
  (same_core s s1 /\ (query s1 = query s \/ isOpen s1 = true))
  \/ (exists value, commits ev s value /\ s1 = state_of (select props (Some value) s))
  \/ (exists i id q, ev = TimerFire id /\
        list_find (fun t => t.1 = id) (timers s) = Some (i, (id, q)) /\
        s1 = debounced q (clearTimeout id s))
  \/ (exists i c q o, ev = Settle c o /\
        list_find (fun r => r.1 = c) (inflight s) = Some (i, (c, q)) /\
        s1 = settled q o
               (set_inflight (filter (fun r => r.1 ≠ c) (inflight s)) s)).
Proof.
  intros E. destruct ev as [raw|key|idx|idx| |id|c o]; simpl in E.
  - injection E as <-. left. split; [by repeat split | by right].
  - destruct key; simpl in E.
    + left. destruct (isOpen s); repeat case_match; simplify_eq;
        (split; [by repeat split | by left]).
    + left. destruct (isOpen s); repeat case_match; simplify_eq;
        (split; [by repeat split | by left]).
    + destruct (isOpen s && (0 <=? highlightedIndex s)) eqn:Eo.
      * destruct (results s !! _) as [value|] eqn:Ev; [|done].
        injection E as <-. right. left. exists value. split; [|done].
        left. apply andb_true_iff in Eo as [Eo Eh].
        apply Z.leb_le in Eh. done.
      * injection E as <-. left. split; [apply same_core_refl | by left].
    + injection E as <-. left. split; [by repeat split | by left].
    + injection E as <-. left. split; [apply same_core_refl | by left].
  - destruct (option_at idx s) as [item|] eqn:Ei; injection E as <-.
    + right. left. exists item. split; [|done]. right. eauto.
    + left. split; [apply same_core_refl | by left].
  - destruct (option_at idx s) as [item|] eqn:Ei; injection E as <-;
      left; (split; [by repeat split | by left]).
  - injection E as <-. left. split; [by repeat split | by left].
  - destruct (list_find _ _) as [[i [id' q]]|] eqn:Ef; injection E as <-.
    + apply list_find_Some in Ef as Ef'. destruct Ef' as (_ & Hid & _).
      simpl in Hid. subst id'. right. right. left. by exists i, id, q.
    + left. split; [apply same_core_refl | by left].
  - destruct (list_find _ _) as [[i [c' q]]|] eqn:Ef; injection E as <-.
    + apply list_find_Some in Ef as Ef'. destruct Ef' as (_ & Hid & _).
      simpl in Hid. subst c'. right. right. right. by exists i, c, q, o.
    + left. split; [apply same_core_refl | by left].
Qed.

(** ** Further invariants *)

(** *** A closed panel has no highlight *)

Lemma handle_closed props ev s s1 :
  handle props ev s = Kept s1 -> closed_unset s -> closed_unset s1.
Proof.
  unfold closed_unset. intros E H.
  destruct ev as [raw|key|idx|idx| |id|c o]; simpl in E.
  - by injection E as <-.
  - destruct key; simpl in E.
    + destruct (isOpen s) eqn:Eo; repeat case_match; simplify_eq; simpl;
        congruence.
    + destruct (isOpen s) eqn:Eo; repeat case_match; simplify_eq; simpl;
        congruence.
    + apply onKeyDown_Enter in E as [-> | (value & _ & _ & _ & ->)];
        [done|]. intros _. apply select_frame.
    + by injection E as <-.
    + by injection E as <-.
  - destruct (option_at idx s); injection E as <-; [|done].
    intros _. apply select_frame.
  - destruct (option_at idx s) eqn:Ei; injection E as <-; [|done]. simpl.
    unfold option_at in Ei. destruct (isOpen s); [done | discriminate].
  - by injection E as <-.
  - destruct (list_find _ _) as [[? [? q]]|]; injection E as <-; [|done].
    unfold debounced. case_match; [done|]. revert H. crush_state.
  - destruct (list_find _ _) as [[? [? q]]|]; injection E as <-; [|done].
    intros _. apply settled_frame.
Qed.

Lemma runJobs_highlight s :
  highlightedIndex (runJobs s) = -1 \/
  highlightedIndex (runJobs s) = highlightedIndex s.
Proof.
  destruct (jobs s) eqn:E.
  - right. by rewrite runJobs_none.
  - left. apply runJobs_cleared. by rewrite E.
Qed.

Lemma commit_closed props before s1 :
  closed_unset s1 -> closed_unset (commit props before s1).
Proof.
  unfold closed_unset, commit. intros H.
  set (x := if decide _ then s1 else effect props s1).
  assert (Hx : isOpen x = isOpen s1 /\ highlightedIndex x = highlightedIndex s1).
  { subst x. case_decide; [done|].
    destruct (effect_frame props s1) as (_ & -> & _ & _ & _ & _ & _ & _ & -> & _).
    done. }
  destruct Hx as [Ho Hh].
  destruct (runJobs_frame x) as (_ & _ & _ & _ & _ & _ & -> & _).
  rewrite Ho. intros Hc.
  destruct (runJobs_highlight x) as [->| ->]; [done|]. rewrite Hh. auto.
Qed.

(** *** One debounce timer *)

Lemma effect_one_timer props s :
  (timers s = [] \/
   exists id q, debounceRef s = Some id /\ timers s = [(id, q)]) ->
  one_timer props (effect props s).
Proof.
  intros H.
  assert (Hc : timers (clearDebounce s) = []).
  { unfold clearDebounce. destruct H as [H | (id & q & Hd & Ht)].
    - destruct (debounceRef s); simpl; by rewrite H.
    - rewrite Hd. simpl. rewrite Ht, filter_cons_False by (simpl; tauto).
      done. }
  unfold effect, one_timer. case_match.
  - by left.
  - right. exists (nextId (clearDebounce s)). simpl. rewrite Hc.
    apply Z.ltb_ge in H0. done.
Qed.

Lemma handle_timers props ev s s1 :
  handle props ev s = Kept s1 ->
  debounceRef s1 = debounceRef s /\
  (timers s1 = timers s \/
   query s1 = query s /\
   exists id, timers s1 = filter (fun t => t.1 ≠ id) (timers s)).
Proof.
  intros E. apply handle_shape in E
    as [[Hc _] | [(value & _ & ->) | [(i & id & q & _ & _ & ->)
        | (i & c & q & o & _ & _ & ->)]]].
  - destruct Hc as (_ & ? & _ & _ & _ & ? & _). by split; [|left].
  - destruct (select_frame props value s) as (? & _ & _ & _ & _ & _ & _ & _ & _ & _ & ? & _).
    by split; [|left].
  - split; [crush_state|]. right. split; [crush_state|]. exists id. crush_state.
  - destruct (settled_frame q o (set_inflight (filter (fun r => r.1 ≠ c) (inflight s)) s))
      as (? & _ & _ & _ & _ & _ & _ & _ & ? & _).
    by split; [|left].
Qed.

Lemma step_one_timer props ev s s' :
  step props ev s = Some s' -> one_timer props s -> one_timer props s'.
Proof.
  intros E H. apply step_handle in E as (s1 & E & ->).
  destruct (handle_timers _ _ _ _ E) as [Hd Ht].
  assert (Hw : timers s1 = [] \/
               exists id q, debounceRef s1 = Some id /\ timers s1 = [(id, q)]).
  { destruct H as [H | (id & Hi & H & _)].
    - left. destruct Ht as [-> | [_ [id ->]]]; by rewrite H.
    - destruct Ht as [Ht | [_ [id' Ht]]].
      + right. exists id, (trim (query s)). by rewrite Hd, Ht.
      + rewrite H in Ht. destruct (decide (id = id')) as [->|Hne].
        * left. by rewrite Ht, filter_cons_False by (simpl; tauto).
        * right. exists id, (trim (query s)). rewrite Hd.
          by rewrite Ht, filter_cons_True by done. }
  unfold commit.
  set (x := if decide _ then s1 else effect props s1).
  assert (Hx : one_timer props x).
  { subst x. case_decide as Hq; [|by apply effect_one_timer].
    destruct Hw as [Hw | (id & q & Hi & Hw)]; [by left|].
    destruct H as [H | (id0 & Hi0 & H & Hlen)].
    - destruct Ht as [Ht | [_ [id' Ht]]]; rewrite H in Ht; by rewrite Ht in Hw.
    - right. exists id. rewrite Hq. split; [done|]. split; [|done].
      rewrite Hw. destruct Ht as [Ht | [_ [id' Ht]]]; rewrite H, Hw in Ht.
      + by injection Ht as _ ->.
      + destruct (decide (id0 = id')) as [->|Hne].
        * by rewrite filter_cons_False in Ht by (simpl; tauto).
        * rewrite filter_cons_True in Ht by done. by injection Ht as _ ->. }
  destruct (runJobs_frame x) as (Rt & _ & _ & _ & _ & Rq & _ & _ & Rd).
  unfold one_timer. by rewrite Rt, Rq, Rd.
Qed.

(** *** The requests in flight *)

Lemma NoDup_fst_filter (P : nat * jsstring -> Prop)
    `{!forall r, Decision (P r)} (l : list (nat * jsstring)) :
  NoDup l.*1 -> NoDup (filter P l).*1.
Proof.
  induction l as [|r l IH]; [done|]. rewrite fmap_cons, NoDup_cons.
  intros [Hr Hl]. destruct (decide (P r)).
  - rewrite filter_cons_True by done. rewrite fmap_cons, NoDup_cons.
    split; [|by apply IH]. intros Hin. apply Hr.
    apply list_elem_of_fmap in Hin as (r' & -> & Hin).
    apply list_elem_of_filter in Hin as [_ Hin].
    apply list_elem_of_fmap. eauto.
  - rewrite filter_cons_False by done. by apply IH.
Qed.

Lemma Forall_filter_keep {A} (Q : A -> Prop) (P : A -> Prop)
    `{!forall r, Decision (P r)} (l : list A) :
  Forall Q l -> Forall Q (filter P l).
Proof.
  rewrite !Forall_forall. intros Hall x Hx.
  apply list_elem_of_filter in Hx as [_ Hx]. auto.
Qed.

Lemma filter_not_fst c (l : list (nat * jsstring)) :
  c ∉ (filter (fun r => r.1 ≠ c) l).*1.
Proof.
  intros Hin. apply list_elem_of_fmap in Hin as ([c' q] & E & Hin).
  apply list_elem_of_filter in Hin as [Hin _]. simpl in *. by subst.
Qed.

Lemma effect_nextId props s : (nextId s <= nextId (effect props s))%nat.
Proof. crush_state; lia. Qed.

Lemma handle_requests props ev s s1 :
  handle props ev s = Kept s1 -> jobs s = [] -> requests_ok s ->
  NoDup (inflight s1).*1 /\
  Forall (fun r => (r.1 < nextId s1)%nat) (inflight s1) /\
  (forall c, controllerRef s1 = Some c ->
             c ∈ (inflight s1).*1 \/ jobs s1 <> []).
Proof.
  intros E Hj [Hn Hf Hr]. apply handle_shape in E
    as [[Hc _] | [(value & _ & ->) | [(i & id & q & _ & _ & ->)
        | (i & c & q & o & _ & _ & ->)]]].
  - destruct Hc as (Ec & _ & _ & _ & _ & _ & Ei & _ & _ & _ & _ & En).
    rewrite Ei, En, Ec. repeat split; auto.
  - destruct (select_shape props value s) as (-> & -> & ->).
    destruct (select_frame props value s) as (_ & -> & _).
    destruct (abortCurrent_shape s Hj)
      as [-> [(-> & -> & _) | (c & q & _ & _ & -> & ->)]].
    + repeat split; auto.
    + split; [by apply NoDup_fst_filter|].
      split; [by apply Forall_filter_keep|]. by right.
  - set (s0 := clearTimeout id s).
    assert (Hj0 : jobs s0 = []) by done.
    unfold debounced. destruct (cacheRef s0 !! q); [simpl; repeat split; auto|].
    unfold fetch. simpl.
    destruct (abortCurrent_frame s0) as (_ & -> & _).
    assert (Hl : NoDup (inflight (abortCurrent s0)).*1 /\
                 Forall (fun r => (r.1 < nextId s)%nat)
                   (inflight (abortCurrent s0))).
    { destruct (abortCurrent_shape s0 Hj0)
        as [_ [(-> & _) | (c & q' & _ & _ & -> & _)]]; [done|].
      split; [by apply NoDup_fst_filter | by apply Forall_filter_keep]. }
    destruct Hl as [Hn' Hf']. change (nextId s0) with (nextId s).
    split; [|split].
    + rewrite fmap_app. apply NoDup_app. split; [done|]. split.
      * intros c Hc Hin. apply list_elem_of_singleton in Hin as ->.
        apply list_elem_of_fmap in Hc as (r & E & Hc).
        rewrite Forall_forall in Hf'. specialize (Hf' r Hc).
        simpl in E. lia.
      * apply NoDup_singleton.
    + apply Forall_app. split.
      * eapply Forall_impl; [exact Hf'|]. simpl. intros; lia.
      * repeat constructor.
    + intros c [= <-]. left. rewrite fmap_app. apply elem_of_app. right.
      apply list_elem_of_here.
  - destruct (settled_frame q o
                (set_inflight (filter (fun r => r.1 ≠ c) (inflight s)) s))
      as (_ & -> & _ & -> & _ & _ & _ & _ & _ & _ & _ & ->).
    split; [by apply NoDup_fst_filter|].
    split; [by apply Forall_filter_keep | done].
Qed.

Lemma commit_requests props before s1 :
  NoDup (inflight s1).*1 ->
  Forall (fun r => (r.1 < nextId s1)%nat) (inflight s1) ->
  (forall c, controllerRef s1 = Some c ->
             c ∈ (inflight s1).*1 \/ jobs s1 <> []) ->
  requests_ok (commit props before s1).
Proof.
  intros Hn Hf Hr. unfold commit.
  set (x := if decide _ then s1 else effect props s1).
  assert (Hx : inflight x = inflight s1 /\ controllerRef x = controllerRef s1
               /\ jobs x = jobs s1 /\ (nextId s1 <= nextId x)%nat).
  { subst x. case_decide; [done|].
    destruct (effect_frame props s1) as (-> & _ & _ & -> & _ & _ & _ & _ & _ & ->).
    repeat split. apply effect_nextId. }
  destruct Hx as (Hi & Hc & Hj & Hle).
  destruct (runJobs_frame x) as (_ & Rn & _ & Ri & _).
  split.
  - by rewrite Ri, Hi.
  - rewrite Ri, Rn, Hi. eapply Forall_impl; [exact Hf|]. simpl. intros; lia.
  - rewrite Ri, Hi. intros c Ec. destruct (jobs x) eqn:Ej.
    + rewrite runJobs_none in Ec by done. rewrite Hc in Ec.
      destruct (Hr c Ec) as [?|Hne]; [done|]. by rewrite <- Hj in Hne.
    + destruct (runJobs_cleared x) as (_ & Hnone & _); [by rewrite Ej|].
      by rewrite Hnone in Ec.
Qed.

(** *** What was fetched *)

Lemma handle_fetched props ev s s1 :
  handle props ev s = Kept s1 -> jobs s = [] -> one_timer props s ->
  fetched_ok props s -> fetched_ok props s1 /\ jobs_aborts s1.
Proof.
  intros E Hj Ht [Hl Hi Hc]. unfold jobs_aborts. apply handle_shape in E
    as [[Hs _] | [(value & _ & ->) | [(i & id & q & _ & Ef & ->)
        | (i & c & q & o & _ & Ef & ->)]]].
  - destruct Hs as (_ & _ & Ec & _ & _ & _ & Ei & Ej & Ee & _).
    split; [split|]; rewrite ?Ee, ?Ei, ?Ec, ?Ej, ?Hj; auto.
  - destruct (select_shape props value s) as (_ & Ei & Ej).
    destruct (select_frame props value s)
      as (_ & _ & _ & _ & _ & _ & Ee & _ & Ec & _).
    rewrite Ej. split; [split|]; rewrite ?Ee, ?Ei, ?Ec; auto.
    + destruct (abortCurrent_shape s Hj)
        as [_ [(-> & _) | (c & q & _ & _ & -> & _)]]; [done|].
      intros r Hr. apply list_elem_of_filter in Hr as [_ Hr]. auto.
    + destruct (abortCurrent_shape s Hj)
        as [_ [(_ & -> & _) | (c & q & _ & _ & _ & ->)]];
        repeat constructor.
  - set (s0 := clearTimeout id s).
    assert (Hj0 : jobs s0 = []) by done.
    assert (Hq : minQueryLength props <= Z.of_nat (length q)).
    { apply list_find_Some in Ef as (Hin & _).
      apply list_elem_of_lookup_2 in Hin.
      destruct Ht as [Ht | (id0 & _ & Ht & Hlen)]; rewrite Ht in Hin.
      - by apply elem_of_nil in Hin.
      - apply list_elem_of_singleton in Hin. by injection Hin as _ ->. }
    unfold debounced. destruct (cacheRef s0 !! q) eqn:Eq.
    + split; [split|]; simpl; rewrite ?Hj; auto.
    + unfold fetch. simpl.
      destruct (abortCurrent_frame s0)
        as (_ & _ & _ & _ & _ & _ & Ee & _ & _ & Ec & _).
      split; [split|]; simpl; rewrite ?Ee, ?Ec; simpl.
      * apply Forall_app. split; [done | by repeat constructor].
      * intros r Hr. apply elem_of_app in Hr as [Hr|Hr].
        -- apply elem_of_app. left. apply Hi.
           destruct (abortCurrent_shape s0 Hj0)
             as [_ [(E0 & _) | (c & q' & _ & _ & E0 & _)]];
             rewrite E0 in Hr; [done|].
           by apply list_elem_of_filter in Hr as [_ Hr].
        -- apply list_elem_of_singleton in Hr as ->. simpl.
           apply elem_of_app. right. apply list_elem_of_here.
      * intros q' Hq'. apply elem_of_app. left. by apply Hc.
      * destruct (abortCurrent_shape s0 Hj0)
          as [_ [(_ & -> & _) | (c & q' & _ & _ & _ & ->)]];
          repeat constructor.
  - set (s0 := set_inflight _ s).
    destruct (settled_frame q o s0)
      as (_ & _ & Ej & Ei & Ee & _). rewrite Ej.
    assert (Hqf : q ∈ fetched s).
    { apply list_find_Some in Ef as (Hin & _).
      apply list_elem_of_lookup_2 in Hin. by apply (Hi _ Hin). }
    split; [split|]; rewrite ?Ee, ?Ei; simpl; rewrite ?Hj; auto.
    + intros r Hr. apply list_elem_of_filter in Hr as [_ Hr]. auto.
    + intros q' Hq'. destruct o as [res|err]; unfold settled in Hq';
        [|destruct (isAbortError err)]; simpl in Hq'; auto.
      apply lookup_insert_is_Some in Hq' as [<- | [_ Hq']]; auto.
Qed.

Lemma commit_fetched props before s1 :
  fetched_ok props s1 -> jobs_aborts s1 ->
  fetched_ok props (commit props before s1).
Proof.
  intros [Hl Hi Hc] Ha. unfold commit.
  set (x := if decide _ then s1 else effect props s1).
  assert (Hx : fetched x = fetched s1 /\ inflight x = inflight s1 /\
               cacheRef x = cacheRef s1 /\ jobs x = jobs s1).
  { subst x. case_decide; [done|].
    destruct (effect_frame props s1) as (-> & _ & -> & -> & _ & _ & -> & _).
    done. }
  destruct Hx as (He & Hin & Hca & Hj).
  destruct (runJobs_frame x) as (_ & _ & _ & Ri & Rf & _).
  destruct (runJobs_aborts x) as (Rc & _); [unfold jobs_aborts; by rewrite Hj|].
  split; rewrite ?Rf, ?Ri, ?Rc, ?He, ?Hin, ?Hca; auto.
Qed.

(** *** The loading flag *)

Lemma handle_loading props ev s s1 :
  handle props ev s = Kept s1 -> jobs s = [] -> loading_pending s ->
  loading s1 = true ->
  timers s1 <> [] \/ inflight s1 <> [] \/ jobs s1 <> [].
Proof.
  intros E Hj H. apply handle_shape in E
    as [[Hs _] | [(value & _ & ->) | [(i & id & q & _ & Ef & ->)
        | (i & c & q & o & _ & Ef & ->)]]].
  - destruct Hs as (_ & _ & _ & _ & -> & -> & -> & _). intros Hl.
    destruct (H Hl); auto.
  - destruct (select_shape props value s) as (_ & -> & ->).
    destruct (select_frame props value s)
      as (-> & _ & _ & _ & _ & _ & _ & _ & _ & -> & _).
    intros Hl. destruct (H Hl) as [?|Hne]; [by left|].
    destruct (abortCurrent_shape s Hj)
      as [_ [(-> & _) | (c & q & _ & _ & _ & ->)]]; auto.
  - unfold debounced. case_match; [done|]. intros _. right. left.
    unfold fetch. simpl. intros Hn. by apply app_eq_nil in Hn as [_ Hn].
  - intros Hl. by rewrite (proj1 (proj2 (proj2 (proj2 (proj2 (proj2 (proj2
      (proj2 (proj2 (proj2 (proj2 (settled_frame q o _)))))))))))) in Hl.
Qed.

Lemma effect_loading props s :
  loading (effect props s) = true -> timers (effect props s) <> [].
Proof.
  unfold effect. case_match; [done|]. intros _. unfold armDebounce. simpl.
  intros Hn. by apply app_eq_nil in Hn as [_ Hn].
Qed.

Lemma commit_loading props before s1 :
  (loading s1 = true ->
   timers s1 <> [] \/ inflight s1 <> [] \/ jobs s1 <> []) ->
  loading_pending (commit props before s1).
Proof.
  intros H. unfold commit, loading_pending.
  set (x := if decide _ then s1 else effect props s1).
  assert (Hx : loading x = true ->
               timers x <> [] \/ inflight x <> [] \/ jobs x <> []).
  { subst x. case_decide; [done|]. intros Hl. left. by apply effect_loading. }
  destruct (jobs x) eqn:Ej.
  - rewrite runJobs_none by done. intros Hl.
    destruct (Hx Hl) as [?|[?|?]]; auto; done.
  - destruct (runJobs_cleared x) as (-> & _); [by rewrite Ej | done].
Qed.

(** *** All of them, along every run *)

Lemma step_inv2 props ev s s' :
  step props ev s = Some s' -> Inv s -> Inv2 props s -> Inv2 props s'.
Proof.
  intros E [Hj _ _] [Hc Ht Hr Hf Hl].
  pose proof (step_one_timer _ _ _ _ E Ht) as Ht'.
  apply step_handle in E as (s1 & E & ->). split.
  - apply commit_closed. by eapply handle_closed.
  - done.
  - destruct (handle_requests _ _ _ _ E Hj Hr) as (? & ? & ?).
    by apply commit_requests.
  - destruct (handle_fetched _ _ _ _ E Hj Ht Hf). by apply commit_fetched.
  - apply commit_loading. by eapply handle_loading.
Qed.

Lemma mount_inv2 props : Inv2 props (mount props).
Proof.
  unfold mount.
  destruct (effect_frame props initial)
    as (Ej & Eh & Ee & Ei & _ & _ & Ec & _ & Eo & Er).
  split.
  - intros _. by rewrite Eh.
  - apply effect_one_timer. by left.
  - split; rewrite ?Ei, ?Er; [apply NoDup_nil_2 | constructor | done].
  - split; rewrite ?Ee, ?Ei, ?Ec; [constructor | |].
    + intros r Hr. by apply elem_of_nil in Hr.
    + intros q [x Hq]. simpl in Hq. by rewrite lookup_empty in Hq.
  - intros Hl. left. by apply effect_loading.
Qed.

Lemma run_inv2 props evs s s' :
  run props evs s = Some s' -> Inv s -> Inv2 props s -> Inv2 props s'.
Proof.
  revert s. induction evs as [|ev evs IH]; intros s; simpl.
  - by intros [= <-].
  - destruct (step props ev s) as [s1|] eqn:E; [|done].
    intros Hr Hi Hi2. eapply IH; [exact Hr | |].
    + eapply step_inv; eauto.
    + eapply step_inv2; eauto.
Qed.

Lemma reachable_inv2 props s : reachable props s -> Inv2 props s.
Proof.
  intros [evs H]. eapply run_inv2; [exact H | apply mount_inv | apply mount_inv2].
Qed.

(** ** What holds in every reachable state *)

Lemma run_app props evs1 evs2 s :
  run props (evs1 ++ evs2) s =
    match run props evs1 s with
    | Some s1 => run props evs2 s1
    | None => None
    end.
Proof.
  revert s. induction evs1 as [|ev evs1 IH]; intros s; simpl; [done|].
  destruct (step props ev s); [apply IH | done].
Qed.

Lemma reachable_run props evs s s' :
  reachable props s -> run props evs s = Some s' -> reachable props s'.
Proof.
  intros [evs0 H0] H. exists (evs0 ++ evs). by rewrite run_app, H0.
Qed.

Lemma reachable_step props ev s s' :
  reachable props s -> step props ev s = Some s' -> reachable props s'.
Proof.
  intros Hr H. apply (reachable_run props [ev] s s' Hr). simpl. by rewrite H.
Qed.

(** X1: Whenever the panel is closed the highlight is unset, whichever way it
    was closed (Escape, a press outside, a commit) and whatever happened
    since. *)
Theorem closed_panel_has_no_highlight props s :
  reachable props s -> isOpen s = false -> highlightedIndex s = -1.
Proof. intros Hr. apply reachable_inv2 in Hr. apply Hr. Qed.

Lemma closed_panel_has_no_highlight_witness :
  highlightedIndex
    (after defaultProps (typed_b ++ [KeyDown ArrowDown; KeyDown Escape])) = -1.
Proof.
  apply (closed_panel_has_no_highlight defaultProps).
  - exists (typed_b ++ [KeyDown ArrowDown; KeyDown Escape]).
    vm_compute. reflexivity.
  - vm_compute. reflexivity.
Defined.

(** X2: At most one debounce timer is pending at any time; [debounceRef] holds
    its id, and its callback closes over the trimmed current text, which is
    at least [minQueryLength] long. *)
Theorem one_debounce_timer_pending props s :
  reachable props s ->
  (length (timers s) <= 1)%nat /\
  forall id q, (id, q) ∈ timers s ->
    debounceRef s = Some id /\ q = trim (query s) /\
    minQueryLength props <= Z.of_nat (length q).
Proof.
  intros Hr. apply reachable_inv2 in Hr as [_ Ht _ _ _].
  destruct Ht as [Ht | (id0 & Hd & Ht & Hlen)]; rewrite Ht.
  - split; [simpl; lia|]. intros id q Hin. by apply elem_of_nil in Hin.
  - split; [simpl; lia|]. intros id q Hin.
    apply list_elem_of_singleton in Hin. by injection Hin as -> ->.
Qed.

Lemma one_debounce_timer_pending_witness :
  let s := after defaultProps
             [Change (js "b"); Change (js "bo"); Change (js " bos ")] in
  debounceRef s = Some 3%nat /\ js "bos" = trim (query s) /\
  1 <= Z.of_nat (length (js "bos")).
Proof.
  destruct (one_debounce_timer_pending defaultProps
              (after defaultProps
                 [Change (js "b"); Change (js "bo"); Change (js " bos ")]))
    as [_ Hall].
  - exists [Change (js "b"); Change (js "bo"); Change (js " bos ")].
    vm_compute. reflexivity.
  - apply (Hall 3%nat (js "bos")). vm_compute. apply list_elem_of_here.
Defined.

(** X3: [searchCities] is never called with a query shorter than
    [minQueryLength], and the cache holds entries only for queries it was
    called with. *)
Theorem fetches_are_long_enough props s :
  reachable props s ->
  Forall (fun q => minQueryLength props <= Z.of_nat (length q)) (fetched s)
  /\ forall q, is_Some (cacheRef s !! q) ->
       q ∈ fetched s /\ minQueryLength props <= Z.of_nat (length q).
Proof.
  intros Hr. apply reachable_inv2 in Hr as [_ _ _ [Hl _ Hc] _].
  split; [done|]. intros q Hq. split; [by apply Hc|].
  rewrite Forall_forall in Hl. by apply Hl, Hc.
Qed.

Lemma fetches_are_long_enough_witness :
  Forall (fun q => 2 <= Z.of_nat (length q))
    (fetched (after {| minQueryLength := 2; onSelect := false |}
                [Change (js "b"); Change (js "bo"); TimerFire 1])).
Proof.
  apply (fetches_are_long_enough {| minQueryLength := 2; onSelect := false |}).
  exists [Change (js "b"); Change (js "bo"); TimerFire 1].
  vm_compute. reflexivity.
Defined.

(** X4: The controllers of the requests in flight are pairwise distinct, and
    [controllerRef] never names a request that has settled: it is empty or
    names a request still in flight. *)
Theorem controller_names_request_in_flight props s :
  reachable props s ->
  NoDup (inflight s).*1 /\
  forall c, controllerRef s = Some c -> exists q, (c, q) ∈ inflight s.
Proof.
  intros Hr. apply reachable_inv2 in Hr as [_ _ [Hn _ Hc] _ _].
  split; [done|]. intros c Ec. specialize (Hc c Ec).
  apply list_elem_of_fmap in Hc as ([c' q] & -> & Hin). by exists q.
Qed.

Lemma controller_names_request_in_flight_witness :
  exists q, (2%nat, q) ∈ inflight (after defaultProps [Change (js "b"); TimerFire 1]).
Proof.
  destruct (controller_names_request_in_flight defaultProps
              (after defaultProps [Change (js "b"); TimerFire 1])) as [_ H].
  - exists [Change (js "b"); TimerFire 1]. vm_compute. reflexivity.
  - apply H. vm_compute. reflexivity.
Defined.

(** X5: The loading flag is only set while a debounce timer or a request is
    pending, whose firing or settling will clear it. *)
Theorem loading_only_while_pending props s :
  reachable props s -> loading s = true ->
  timers s <> [] \/ inflight s <> [].
Proof. intros Hr. apply reachable_inv2 in Hr. apply Hr. Qed.

Lemma loading_only_while_pending_witness :
  timers (after defaultProps [Change (js "b")]) <> [] \/
  inflight (after defaultProps [Change (js "b")]) <> [].
Proof.
  apply (loading_only_while_pending defaultProps).
  - exists [Change (js "b")]. vm_compute. reflexivity.
  - vm_compute. reflexivity.
Defined.

(** X6: The component fails in one situation only: Enter on the open panel with
    a highlight and no results, where [select] receives [undefined].  With
    results, every event is handled. *)
Theorem crash_only_on_empty_enter props ev s :
  reachable props s ->
  (step props ev s = None <->
   ev = KeyDown Enter /\ isOpen s = true /\ 0 <= highlightedIndex s /\
   results s = []).
Proof.
  intros Hr. apply reachable_inv in Hr as [_ _ Hh].
  unfold step. split.
  - destruct (handle props ev s) as [s1|] eqn:E; [done|]. intros _.
    destruct ev as [raw|key|idx|idx| |id|c o]; simpl in E;
      try done; try (by repeat case_match).
    destruct key; simpl in E; try done; try (by repeat case_match).
    destruct (isOpen s) eqn:Eo; [|done]. simpl in E.
    destruct (Z.leb_spec 0 (highlightedIndex s)) as [H0|]; [|done].
    destruct (results s !! _) eqn:El; [done|].
    repeat split; try done.
    destruct Hh as [?|Hb]; [done|].
    apply lookup_ge_None in El. lia.
  - intros (-> & Ho & H0 & Hres). simpl. rewrite Ho, Hres. simpl.
    by destruct (Z.leb_spec 0 (highlightedIndex s)); [|lia].
Qed.

Lemma crash_only_on_empty_enter_witness :
  step defaultProps (KeyDown Enter)
    (after defaultProps (typed_b ++ [KeyDown ArrowDown; Change []])) = None.
Proof.
  apply (crash_only_on_empty_enter defaultProps).
  - exists (typed_b ++ [KeyDown ArrowDown; Change []]). vm_compute. reflexivity.
  - repeat split; vm_compute; congruence.
Defined.

(** ** What a turn changes *)

Lemma commit_keeps props before s1 :
  jobs_aborts s1 ->
  let s' := commit props before s1 in
  fetched s' = fetched s1 /\ cacheRef s' = cacheRef s1 /\
  console s' = console s1 /\ selected s' = selected s1 /\
  inflight s' = inflight s1 /\ query s' = query s1 /\
  isOpen s' = isOpen s1.
Proof.
  intros Ha. unfold commit.
  set (x := if decide _ then s1 else effect props s1).
  assert (Hx : fetched x = fetched s1 /\ cacheRef x = cacheRef s1 /\
               console x = console s1 /\ selected x = selected s1 /\
               inflight x = inflight s1 /\ query x = query s1 /\
               isOpen x = isOpen s1 /\ jobs x = jobs s1).
  { subst x. case_decide; [done|].
    destruct (effect_frame props s1)
      as (-> & _ & -> & -> & -> & -> & -> & -> & -> & _).
    done. }
  destruct Hx as (<- & <- & <- & <- & <- & <- & <- & Hj).
  destruct (runJobs_frame x) as (_ & _ & _ & -> & -> & -> & -> & -> & _).
  destruct (runJobs_aborts x) as (-> & _ & ->);
    [unfold jobs_aborts; by rewrite Hj | done].
Qed.

Lemma step_shape props ev s s' :
  reachable props s -> step props ev s = Some s' ->
  exists s1, handle props ev s = Kept s1 /\ s' = commit props s s1 /\
    jobs_aborts s1.
Proof.
  intros Hr E. apply step_handle in E as (s1 & E & ->).
  exists s1. split; [done|]. split; [done|].
  apply reachable_inv in Hr as Hi. apply reachable_inv2 in Hr as Hi2.
  by destruct (handle_fetched props ev s s1 E (inv_jobs _ Hi)
                 (inv_timer _ _ Hi2) (inv_fetched _ _ Hi2)).
Qed.

Lemma NoDup_fst_inj (l : list (nat * jsstring)) c q q' :
  NoDup l.*1 -> (c, q) ∈ l -> (c, q') ∈ l -> q = q'.
Proof.
  induction l as [|[c0 q0] l IH]; [by intros _ ?%elem_of_nil|].
  rewrite fmap_cons, NoDup_cons. intros [Hn Hl] H1 H2.
  apply elem_of_cons in H1 as [E1|H1];
    apply elem_of_cons in H2 as [E2|H2]; simplify_eq; try done.
  - destruct Hn. apply list_elem_of_fmap. by exists (c0, q').
  - destruct Hn. apply list_elem_of_fmap. by exists (c0, q).
  - by apply IH.
Qed.

(** X7: A request that resolves is removed from the requests in flight; its
    result is stored in the cache under the query it was issued for and is
    displayed, with loading cleared and the highlight unset.  No other cache
    entry changes. *)
Theorem resolved_request_is_cached props s c q res :
  reachable props s -> (c, q) ∈ inflight s ->
  exists s', step props (Settle c (Resolved res)) s = Some s' /\
    cacheRef s' = <[q:=res]> (cacheRef s) /\ cacheRef s' !! q = Some res /\
    results s' = res /\ loading s' = false /\ highlightedIndex s' = -1 /\
    (c ∉ (inflight s').*1) /\ console s' = console s.
Proof.
  intros Hr Hin. apply reachable_inv in Hr as Hi.
  apply reachable_inv2 in Hr as Hi2.
  eexists. split; [apply step_settle; apply Hi|].
  destruct (list_find_elem_of (fun r : nat * jsstring => r.1 = c)
              (inflight s) (c, q) Hin eq_refl) as [[i [c' q']] Ef].
  rewrite Ef. apply list_find_Some in Ef as (Hl & Hc & _).
  simpl in Hc. subst c'. apply list_elem_of_lookup_2 in Hl.
  assert (q' = q) as ->
    by (eapply NoDup_fst_inj; [apply Hi2 | exact Hl | exact Hin]).
  unfold settled, cacheSet. simpl. rewrite lookup_insert_eq.
  repeat split; try done. apply filter_not_fst.
Qed.

Lemma resolved_request_is_cached_witness :
  exists s', step defaultProps (Settle 2 (Resolved (source (js "b"))))
               (after defaultProps [Change (js "b"); TimerFire 1]) = Some s' /\
    cacheRef s' !! js "b" = Some (source (js "b")).
Proof.
  destruct (resolved_request_is_cached defaultProps
              (after defaultProps [Change (js "b"); TimerFire 1]) 2 (js "b")
              (source (js "b")))
    as (s' & Hs & _ & Hc & _).
  - exists [Change (js "b"); TimerFire 1]. vm_compute. reflexivity.
  - vm_compute. apply list_elem_of_here.
  - by exists s'.
Defined.

(** One turn leaves the cache as it is or adds the result of a resolved
    request to it. *)
Lemma step_cache props ev s s' :
  reachable props s -> step props ev s = Some s' ->
  cacheRef s' = cacheRef s \/
  exists c q res, ev = Settle c (Resolved res) /\ (c, q) ∈ inflight s /\
    cacheRef s' = <[q:=res]> (cacheRef s).
Proof.
  intros Hr E. destruct (step_shape _ _ _ _ Hr E) as (s1 & Eh & -> & Ha).
  destruct (commit_keeps props s s1 Ha) as (_ & -> & _).
  apply handle_shape in Eh
    as [[Hc _] | [(value & _ & ->) | [(i & id & q & _ & _ & ->)
        | (i & c & q & o & -> & Ef & ->)]]].
  - left. apply Hc.
  - left. apply select_frame.
  - left. crush_state.
  - destruct o as [res|err]; [|left; crush_state].
    right. exists c, q, res. split; [done|]. split; [|done].
    apply list_find_Some in Ef as (Hl & _).
    by apply list_elem_of_lookup_2 in Hl.
Qed.

(** X8: The cache never forgets: a query cached at some point is still cached
    after any further run. *)
Theorem cache_never_forgets props evs s s' q :
  reachable props s -> run props evs s = Some s' ->
  is_Some (cacheRef s !! q) -> is_Some (cacheRef s' !! q).
Proof.
  revert s. induction evs as [|ev evs IH]; intros s Hr; simpl.
  - by intros [= <-].
  - destruct (step props ev s) as [s1|] eqn:E; [|done]. intros Hrun Hq.
    apply (IH s1); [by eapply reachable_step | done |].
    destruct (step_cache _ _ _ _ Hr E) as [-> | (c & q' & res & _ & _ & ->)];
      [done|].
    apply lookup_insert_is_Some. destruct (decide (q' = q)); auto.
Qed.

Lemma cache_never_forgets_witness :
  is_Some (cacheRef (after defaultProps
                       (typed_b ++ [Change (js "bo"); TimerFire 3;
                                    Settle 4 (Rejected (OtherError []))]))
             !! js "b").
Proof.
  apply (cache_never_forgets defaultProps
           [Change (js "bo"); TimerFire 3; Settle 4 (Rejected (OtherError []))]
           (after defaultProps typed_b)).
  - exists typed_b. vm_compute. reflexivity.
  - vm_compute. reflexivity.
  - vm_compute. eauto.
Defined.

(** X9: [searchCities] is called by a firing debounce timer only, at most once
    per firing, with the trimmed current text, and only when the cache has no
    entry for it.  No other event issues a request. *)
Theorem only_timers_fetch props ev s s' :
  reachable props s -> step props ev s = Some s' ->
  fetched s' = fetched s \/
  exists id, ev = TimerFire id /\ (id, trim (query s)) ∈ timers s /\
    cacheRef s !! trim (query s) = None /\
    fetched s' = fetched s ++ [trim (query s)].
Proof.
  intros Hr E. destruct (step_shape _ _ _ _ Hr E) as (s1 & Eh & -> & Ha).
  destruct (commit_keeps props s s1 Ha) as (-> & _).
  apply handle_shape in Eh
    as [[Hc _] | [(value & _ & ->) | [(i & id & q & -> & Ef & ->)
        | (i & c & q & o & -> & Ef & ->)]]].
  - left. apply Hc.
  - left. apply select_frame.
  - apply list_find_Some in Ef as (Hl & _).
    apply list_elem_of_lookup_2 in Hl.
    assert (q = trim (query s)) as ->.
    { apply reachable_inv2 in Hr as [_ [Ht | (id0 & _ & Ht & _)] _ _ _];
        rewrite Ht in Hl.
      - by apply elem_of_nil in Hl.
      - apply list_elem_of_singleton in Hl. by injection Hl as _ ->. }
    unfold debounced.
    change (cacheRef (clearTimeout id s)) with (cacheRef s).
    destruct (cacheRef s !! trim (query s)) eqn:Ec; [by left|].
    right. exists id. repeat split; try done. crush_state.
  - left. by destruct (settled_frame q o
                (set_inflight (filter (fun r => r.1 ≠ c) (inflight s)) s))
      as (_ & _ & _ & _ & -> & _).
Qed.

Lemma only_timers_fetch_witness :
  fetched (after defaultProps [Change (js " b"); TimerFire 1]) = [js "b"].
Proof.
  destruct (only_timers_fetch defaultProps (TimerFire 1)
              (after defaultProps [Change (js " b")])
              (after defaultProps [Change (js " b"); TimerFire 1]))
    as [H | (id & _ & _ & _ & H)].
  - exists [Change (js " b")]. vm_compute. reflexivity.
  - vm_compute. reflexivity.
  - exfalso. vm_compute in H. discriminate.
  - rewrite H. vm_compute. reflexivity.
Defined.

(** X10: [console.error] is called for one reason only: a request was rejected
    with something else than the abort signal.  Typing, navigating, committing
    and aborting never log. *)
Theorem errors_logged_only_for_failures props ev s s' :
  reachable props s -> step props ev s = Some s' ->
  console s' = console s \/
  exists c err, ev = Settle c (Rejected err) /\ isAbortError err = false /\
    c ∈ (inflight s).*1 /\ console s' = console s ++ [err].
Proof.
  intros Hr E. destruct (step_shape _ _ _ _ Hr E) as (s1 & Eh & -> & Ha).
  destruct (commit_keeps props s s1 Ha) as (_ & _ & -> & _).
  apply handle_shape in Eh
    as [[Hc _] | [(value & _ & ->) | [(i & id & q & -> & Ef & ->)
        | (i & c & q & o & -> & Ef & ->)]]].
  - left. apply Hc.
  - left. apply select_frame.
  - left. crush_state.
  - destruct o as [res|err]; [by left|].
    unfold settled. destruct (isAbortError err) eqn:Ee; [by left|].
    right. exists c, err. repeat split; try done.
    apply list_find_Some in Ef as (Hl & _).
    apply list_elem_of_lookup_2 in Hl.
    apply list_elem_of_fmap. by exists (c, q).
Qed.

Lemma errors_logged_only_for_failures_witness :
  console (after defaultProps
             (typed_b ++ [KeyDown ArrowDown; KeyDown Enter; TimerFire 3]))
  = [].
Proof.
  destruct (errors_logged_only_for_failures defaultProps (TimerFire 3)
              (after defaultProps (typed_b ++ [KeyDown ArrowDown; KeyDown Enter]))
              (after defaultProps
                 (typed_b ++ [KeyDown ArrowDown; KeyDown Enter; TimerFire 3])))
    as [H | (c & err & H & _)].
  - exists (typed_b ++ [KeyDown ArrowDown; KeyDown Enter]).
    vm_compute. reflexivity.
  - vm_compute. reflexivity.
  - rewrite H. vm_compute. reflexivity.
  - discriminate H.
Defined.

Lemma handle_QueryUndefined props ev s s1 :
  handle props ev s = QueryUndefined s1 ->
  ev = KeyDown Enter /\ isOpen s = true /\ 0 <= highlightedIndex s /\
  results s !! Z.to_nat (highlightedIndex s) = None /\
  s1 = state_of (select props None s).
Proof.
  destruct ev as [raw|key|idx|idx| |id|c o]; simpl;
    try done; try (by repeat case_match).
  destruct key; simpl; try done; try (by repeat case_match).
  destruct (isOpen s); [|done]. simpl.
  destruct (Z.leb_spec 0 (highlightedIndex s)); [|done].
  destruct (results s !! _); [done|]. by intros [= <-].
Qed.

Lemma select_undefined_frame props s :
  selected (state_of (select props None s)) =
    (if onSelect props then selected s ++ [None] else selected s).
Proof. destruct (onSelect props) eqn:E; crush_state. Qed.

(** X11: [onSelect] is called in a commit turn only (Enter on the open panel
    with a highlight, or a press on a rendered option), once, with
    [results[highlightedIndex]], respectively the option: one of the displayed
    results, or [undefined] in the one turn where the highlight points into
    an empty result list, the turn in which the component then fails.  When
    the component goes on, its log is the one the handler left. *)
Theorem onSelect_called_on_commit_only props ev s :
  reachable props s ->
  let s1 := state_of (handle props ev s) in
  (forall s', step props ev s = Some s' -> selected s' = selected s1) /\
  (selected s1 = selected s \/
   onSelect props = true /\
   ((exists value, commits ev s value /\ value ∈ results s /\
       selected s1 = selected s ++ [Some value])
    \/ (ev = KeyDown Enter /\ isOpen s = true /\ 0 <= highlightedIndex s /\
        results s = [] /\ step props ev s = None /\
        selected s1 = selected s ++ [None]))).
Proof.
  intros Hr. split.
  - intros s' E. destruct (step_shape _ _ _ _ Hr E) as (s1 & Eh & -> & Ha).
    rewrite Eh. simpl. by destruct (commit_keeps props s s1 Ha)
      as (_ & _ & _ & -> & _).
  - destruct (handle props ev s) as [s1|s1] eqn:Eh; simpl.
    + apply handle_shape in Eh
        as [[Hc _] | [(value & Hv & ->) | [(i & id & q & -> & Ef & ->)
            | (i & c & q & o & -> & Ef & ->)]]].
      * left. apply Hc.
      * destruct (select_frame props value s)
          as (_ & _ & _ & _ & _ & _ & _ & _ & _ & _ & _ & ->).
        destruct (onSelect props); [|by left].
        right. split; [done|]. left. exists value. repeat split; try done.
        destruct Hv as [(_ & _ & _ & Hl) | (idx & _ & Hl)].
        -- by apply list_elem_of_lookup_2 in Hl.
        -- unfold option_at in Hl. case_match; [|done].
           by apply list_elem_of_lookup_2 in Hl.
      * left. crush_state.
      * left. by destruct (settled_frame q o
                    (set_inflight (filter (fun r => r.1 ≠ c) (inflight s)) s))
          as (_ & _ & _ & _ & _ & _ & _ & -> & _).
    + pose proof Eh as Eh'.
      apply handle_QueryUndefined in Eh' as (-> & Ho & Hh & Hl & ->).
      rewrite select_undefined_frame.
      destruct (onSelect props); [|by left].
      right. split; [done|]. right. repeat split; try done.
      * apply reachable_inv in Hr as [_ _ [?|Hb]]; [done|].
        apply lookup_ge_None in Hl. lia.
      * unfold step. by rewrite Eh.
Qed.

Lemma onSelect_called_on_commit_only_witness :
  let s := after defaultProps (typed_b ++ [KeyDown ArrowDown; Change []]) in
  selected (state_of (handle defaultProps (KeyDown Enter) s)) = [None] /\
  step defaultProps (KeyDown Enter) s = None.
Proof.
  destruct (onSelect_called_on_commit_only defaultProps (KeyDown Enter)
              (after defaultProps (typed_b ++ [KeyDown ArrowDown; Change []])))
    as [_ [H | (_ & [(value & _ & Hin & _) | (_ & _ & _ & _ & Hs & H)])]].
  - exists (typed_b ++ [KeyDown ArrowDown; Change []]). vm_compute. reflexivity.
  - exfalso. vm_compute in H. discriminate H.
  - exfalso. vm_compute in Hin. by apply elem_of_nil in Hin.
  - split; [|exact Hs]. rewrite H. vm_compute. reflexivity.
Defined.

(** X12: Escape and a press outside the root close the panel and unset the
    highlight, and that is all: the text, the results, the cache, the
    pending timer and the request in flight are as before, so a search under
    way still completes behind the closed panel. *)
Theorem closing_keeps_search props ev s :
  reachable props s -> ev = KeyDown Escape \/ ev = OutsideMouseDown ->
  exists s', step props ev s = Some s' /\
    isOpen s' = false /\ highlightedIndex s' = -1 /\ query s' = query s /\
    same_core s s'.
Proof.
  intros Hr Hev. apply reachable_inv in Hr as [Hj _ _].
  exists (s |> set_isOpen false |> set_highlightedIndex (-1)).
  split; [|by repeat split].
  unfold step. destruct Hev as [-> | ->]; simpl; f_equal;
    rewrite commit_nojobs by done; by rewrite decide_True.
Qed.

Lemma closing_keeps_search_witness :
  exists s', step defaultProps (KeyDown Escape)
               (after defaultProps [Change (js "b"); TimerFire 1]) = Some s' /\
    isOpen s' = false /\ inflight s' = [(2%nat, js "b")].
Proof.
  destruct (closing_keeps_search defaultProps (KeyDown Escape)
              (after defaultProps [Change (js "b"); TimerFire 1]))
    as (s' & Hs & Ho & _ & _ & Hc).
  - exists [Change (js "b"); TimerFire 1]. vm_compute. reflexivity.
  - by left.
  - exists s'. split; [done|]. split; [done|].
    destruct Hc as (_ & _ & _ & _ & _ & _ & -> & _). vm_compute. reflexivity.
Defined.

(** X13: A commit cancels the request [controllerRef] names: it is no longer in
    flight afterwards, the other requests are untouched, [controllerRef] is
    empty, and neither the cache nor the error log changes. *)
Theorem commit_cancels_request props ev s value c :
  reachable props s -> commits ev s value -> controllerRef s = Some c ->
  exists s', step props ev s = Some s' /\
    inflight s' = filter (fun r => r.1 ≠ c) (inflight s) /\
    (c ∉ (inflight s').*1) /\ controllerRef s' = None /\
    cacheRef s' = cacheRef s /\ console s' = console s /\
    fetched s' = fetched s.
Proof.
  intros Hr Hv Hc. apply reachable_inv in Hr as Hi.
  apply reachable_inv2 in Hr as Hi2.
  pose proof (handle_commits props ev s value Hv) as Eh.
  exists (commit props s (state_of (select props (Some value) s))). split.
  { unfold step. by rewrite Eh. }
  set (s1 := state_of (select props (Some value) s)).
  destruct (select_shape props value s) as (_ & Ei & Ej). fold s1 in Ei, Ej.
  destruct (select_frame props value s)
    as (_ & _ & _ & _ & _ & _ & Ef & Eco & Eca & _). fold s1 in Ef, Eco, Eca.
  destruct (abortCurrent_shape s (inv_jobs _ Hi))
    as [_ [(_ & _ & Hno) | (c' & q & Hc' & _ & Ei' & Ej')]].
  { destruct (Hno c Hc). by apply (req_ref _ (inv_requests _ _ Hi2)). }
  rewrite Hc in Hc'. injection Hc' as <-.
  assert (Ha : jobs_aborts s1).
  { unfold jobs_aborts. rewrite Ej, Ej'. by repeat constructor. }
  destruct (commit_keeps props s s1 Ha) as (-> & -> & -> & _ & -> & _).
  rewrite Ei, Ei'. split; [done|]. split; [apply filter_not_fst|].
  split; [|done]. unfold commit.
  set (x := if decide _ then s1 else effect props s1).
  apply runJobs_cleared.
  replace (jobs x) with (jobs s1); [by rewrite Ej, Ej'|].
  subst x. case_decide; [done|]. by rewrite (proj1 (effect_frame props s1)).
Qed.

Lemma commit_cancels_request_witness :
  exists s', step defaultProps (KeyDown Enter)
               (after defaultProps
                  (typed_b ++ [KeyDown ArrowDown; Change (js "bo"); TimerFire 3]))
             = Some s' /\
    inflight s' = [] /\ controllerRef s' = None.
Proof.
  destruct (commit_cancels_request defaultProps (KeyDown Enter)
              (after defaultProps
                 (typed_b ++ [KeyDown ArrowDown; Change (js "bo"); TimerFire 3]))
              (js "Boston") 4%nat)
    as (s' & Hs & Hi & _ & Hc & _).
  - exists (typed_b ++ [KeyDown ArrowDown; Change (js "bo"); TimerFire 3]).
    vm_compute. reflexivity.
  - left. repeat split; vm_compute; congruence.
  - vm_compute. reflexivity.
  - exists s'. split; [done|]. split; [|done]. rewrite Hi.
    vm_compute. reflexivity.
Defined.

(** ** Typing, navigating and committing, composed *)

Lemma run_cons props ev evs s :
  run props (ev :: evs) s =
    match step props ev s with
    | Some s' => run props evs s'
    | None => None
    end.
Proof. reflexivity. Qed.

Lemma step_change_frame props s raw :
  Inv s ->
  exists s', step props (Change raw) s = Some s' /\
    query s' = raw /\ fetched s' = fetched s /\ inflight s' = inflight s /\
    cacheRef s' = cacheRef s /\ controllerRef s' = controllerRef s.
Proof.
  intros [Hj _ _]. unfold step. simpl. eexists. split; [reflexivity|].
  rewrite commit_nojobs by done. case_decide; [done|].
  destruct (effect_frame props (onChange raw s))
    as (_ & _ & -> & -> & _ & _ & -> & -> & _ & ->).
  done.
Qed.

(** X14: However many keystrokes arrive in a row, no request is issued or
    cancelled and the cache is not touched; the text is the last one typed
    and at most one timer remains, carrying that text trimmed. *)
Theorem typing_burst_coalesces props s raws :
  reachable props s ->
  exists s', run props (Change <$> raws) s = Some s' /\
    query s' = default (query s) (last raws) /\
    fetched s' = fetched s /\ inflight s' = inflight s /\
    cacheRef s' = cacheRef s /\
    (length (timers s') <= 1)%nat /\
    forall t, t ∈ timers s' -> t.2 = trim (query s').
Proof.
  intros Hr.
  assert (H : forall s0, Inv s0 ->
            exists s', run props (Change <$> raws) s0 = Some s' /\
              query s' = default (query s0) (last raws) /\
              fetched s' = fetched s0 /\ inflight s' = inflight s0 /\
              cacheRef s' = cacheRef s0).
  { induction raws as [|raw raws IH]; intros s0 Hi; [by exists s0|].
    destruct (step_change_frame props s0 raw Hi)
      as (s1 & E & Hq & Hf & Hin & Hc & _).
    destruct (IH s1) as (s' & Hrun & Hq' & Hf' & Hin' & Hc');
      [by eapply step_inv|].
    exists s'. rewrite fmap_cons, run_cons, E. split; [done|].
    split; [|repeat split; congruence].
    rewrite Hq', Hq, last_cons. by destruct (last raws). }
  destruct (H s (reachable_inv _ _ Hr)) as (s' & Hrun & Hq & Hf & Hin & Hc).
  exists s'. repeat split; try done.
  - pose proof (reachable_run _ _ _ _ Hr Hrun) as Hr'.
    apply reachable_inv2 in Hr' as [_ [Ht | (id & _ & Ht & _)] _ _ _];
      rewrite Ht; simpl; lia.
  - intros t Hin'. pose proof (reachable_run _ _ _ _ Hr Hrun) as Hr'.
    apply reachable_inv2 in Hr' as [_ [Ht | (id & _ & Ht & _)] _ _ _];
      rewrite Ht in Hin'.
    + by apply elem_of_nil in Hin'.
    + by apply list_elem_of_singleton in Hin' as ->.
Qed.

Lemma typing_burst_coalesces_witness :
  exists s', run defaultProps (Change <$> [js "b"; js "bo"; js "bos "])
               (after defaultProps typed_b) = Some s' /\
    query s' = js "bos " /\ fetched s' = [js "b"] /\
    (length (timers s') <= 1)%nat.
Proof.
  destruct (typing_burst_coalesces defaultProps (after defaultProps typed_b)
              [js "b"; js "bo"; js "bos "])
    as (s' & Hrun & Hq & Hf & _ & _ & Hl & _).
  - exists typed_b. vm_compute. reflexivity.
  - exists s'. split; [done|]. split; [done|]. split; [|done].
    rewrite Hf. vm_compute. reflexivity.
Defined.

Lemma select_after_hover props item z s :
  select props (Some item) (set_highlightedIndex z s)
  = select props (Some item) s.
Proof. destruct (onSelect props) eqn:E; crush_state. Qed.

(** X15: Hovering an option and pressing Enter ends in the very state a pointer
    press on that option ends in. *)
Theorem hover_enter_is_press props s idx item :
  reachable props s -> option_at idx s = Some item ->
  exists s', step props (OptionMouseDown idx) s = Some s' /\
    run props [OptionMouseEnter idx; KeyDown Enter] s = Some s'.
Proof.
  intros Hr Ho. apply reachable_inv in Hr as [Hj _ _].
  exists (commit props s (state_of (select props (Some item) s))). split.
  { unfold step. simpl. by rewrite Ho. }
  assert (Hopen : isOpen s = true /\ results s !! idx = Some item).
  { unfold option_at in Ho. destruct (isOpen s); [|done].
    by destruct (loading s). }
  destruct Hopen as [Hopen Hl].
  assert (E1 : step props (OptionMouseEnter idx) s
               = Some (set_highlightedIndex (Z.of_nat idx) s)).
  { unfold step. simpl. rewrite Ho. f_equal.
    rewrite commit_nojobs by done. by rewrite decide_True. }
  assert (E2 : handle props (KeyDown Enter)
                 (set_highlightedIndex (Z.of_nat idx) s)
               = select props (Some item) s).
  { rewrite (handle_commits props _ _ item); [apply select_after_hover|].
    left. simpl. rewrite Nat2Z.id. repeat split; try done. lia. }
  rewrite run_cons, E1, run_cons. unfold step. rewrite E2. reflexivity.
Qed.

Lemma hover_enter_is_press_witness :
  query <$> run defaultProps [OptionMouseEnter 4; KeyDown Enter]
              (after defaultProps typed_b)
  = Some (js "Berlin").
Proof.
  destruct (hover_enter_is_press defaultProps (after defaultProps typed_b)
              4 (js "Berlin")) as (s' & Hs & ->).
  - exists typed_b. vm_compute. reflexivity.
  - vm_compute. reflexivity.
  - simpl. f_equal. vm_compute in Hs. injection Hs as <-. reflexivity.
Defined.

(** X16: With results and a highlighted option, ArrowDown and ArrowUp undo each
    other. *)
Theorem arrows_undo_each_other props s :
  reachable props s -> results s <> [] -> 0 <= highlightedIndex s ->
  highlightedIndex <$> run props [KeyDown ArrowDown; KeyDown ArrowUp] s
    = Some (highlightedIndex s)
  /\ highlightedIndex <$> run props [KeyDown ArrowUp; KeyDown ArrowDown] s
      = Some (highlightedIndex s).
Proof.
  intros Hr Hne H0. apply reachable_inv in Hr as Hi.
  assert (Hn : Z.of_nat (length (results s)) <> 0).
  { destruct (results s); [done | simpl; lia]. }
  assert (Hb : highlightedIndex s < Z.of_nat (length (results s))).
  { destruct (inv_hl _ Hi) as [?|?]; [done | lia]. }
  split.
  - destruct (step_arrow props ArrowDown s (or_introl eq_refl) Hi)
      as (s1 & E1 & Hs1 & Hi1 & _ & Hr1).
    destruct (arrow_down_highlight props s s1 E1 (inv_hl _ Hi)) as [_ Hh1].
    destruct (step_arrow props ArrowUp s1 (or_intror eq_refl) Hi1)
      as (s2 & E2 & Hs2 & _ & _ & Hr2).
    destruct (arrow_up_highlight props s1 s2 E2 (inv_hl _ Hi1)) as [_ Hh2].
    rewrite run_cons, Hs1, run_cons, Hs2. simpl. f_equal.
    rewrite Hr1 in Hh2. rewrite (Hh2 Hn), (Hh1 Hn).
    pose proof (Z.mod_pos_bound (highlightedIndex s + 1)
                  (Z.of_nat (length (results s))) ltac:(lia)).
    destruct (Z.eqb_spec ((highlightedIndex s + 1)
                          mod Z.of_nat (length (results s))) (-1)); [lia|].
    rewrite Zminus_mod_idemp_l.
    replace (highlightedIndex s + 1 - 1) with (highlightedIndex s) by lia.
    apply Z.mod_small. lia.
  - destruct (step_arrow props ArrowUp s (or_intror eq_refl) Hi)
      as (s1 & E1 & Hs1 & Hi1 & _ & Hr1).
    destruct (arrow_up_highlight props s s1 E1 (inv_hl _ Hi)) as [_ Hh1].
    destruct (step_arrow props ArrowDown s1 (or_introl eq_refl) Hi1)
      as (s2 & E2 & Hs2 & _ & _ & Hr2).
    destruct (arrow_down_highlight props s1 s2 E2 (inv_hl _ Hi1)) as [_ Hh2].
    rewrite run_cons, Hs1, run_cons, Hs2. simpl. f_equal.
    rewrite Hr1 in Hh2. rewrite (Hh2 Hn), (Hh1 Hn).
    destruct (Z.eqb_spec (highlightedIndex s) (-1)); [lia|].
    rewrite Zplus_mod_idemp_l.
    replace (highlightedIndex s - 1 + 1) with (highlightedIndex s) by lia.
    apply Z.mod_small. lia.
Qed.

Lemma arrows_undo_each_other_witness :
  highlightedIndex
    <$> run defaultProps [KeyDown ArrowUp; KeyDown ArrowDown]
          (after defaultProps (typed_b ++ [KeyDown ArrowDown]))
  = Some 0.
Proof.
  apply (arrows_undo_each_other defaultProps
           (after defaultProps (typed_b ++ [KeyDown ArrowDown]))).
  - exists (typed_b ++ [KeyDown ArrowDown]). vm_compute. reflexivity.
  - vm_compute. discriminate.
  - vm_compute. discriminate.
Defined.

(** ** Unmounting *)

(** X17: Unmounting leaves no debounce timer behind and aborts the request
    [controllerRef] names; it issues no request and does not touch the
    cache. *)
Theorem unmount_cleans_up props s :
  reachable props s ->
  timers (unmount s) = [] /\ debounceRef (unmount s) = None /\
  (forall c, controllerRef s = Some c -> c ∉ (inflight (unmount s)).*1) /\
  fetched (unmount s) = fetched s /\ cacheRef (unmount s) = cacheRef s.
Proof.
  intros Hr. apply reachable_inv in Hr as Hi.
  apply reachable_inv2 in Hr as Hi2. unfold unmount.
  destruct (abortCurrent_frame s)
    as (Et & _ & _ & _ & _ & _ & Ef & _ & _ & Ec & _ & Ed).
  set (s0 := abortCurrent s) in *.
  set (s1 := match debounceRef s0 with
             | Some id => clearTimeout id s0
             | None => s0
             end).
  assert (H1 : timers s1 = [] /\ debounceRef s1 = debounceRef s /\
               inflight s1 = inflight s0 /\ fetched s1 = fetched s /\
               cacheRef s1 = cacheRef s).
  { subst s1. rewrite Ed.
    destruct (inv_timer _ _ Hi2) as [Ht | (id & Hd & Ht & _)].
    - destruct (debounceRef s); simpl; rewrite Et, Ht; done.
    - rewrite Hd. simpl. rewrite Et, Ht.
      rewrite filter_cons_False by (simpl; tauto). by rewrite Ed, Hd. }
  destruct H1 as (Ht1 & Hd1 & Hi1 & Hf1 & Hc1).
  unfold clearDebounce. destruct (debounceRef s1) eqn:E1; simpl;
    rewrite ?Ht1, ?Hi1, ?Hf1, ?Hc1; repeat split; try done.
  all: intros c Hc;
    destruct (abortCurrent_shape s (inv_jobs _ Hi))
      as [_ [(_ & _ & Hno) | (c' & q & Hc' & _ & Ei' & _)]];
    [ destruct (Hno c Hc); by apply (req_ref _ (inv_requests _ _ Hi2))
    | rewrite Hc in Hc'; injection Hc' as <-; fold s0 in Ei'; rewrite Ei';
      apply filter_not_fst ].
Qed.

Lemma unmount_cleans_up_witness :
  timers (unmount (after defaultProps
                     [Change (js "b"); TimerFire 1; Change (js "bo")])) = []
  /\ 2%nat ∉ (inflight (unmount (after defaultProps
                 [Change (js "b"); TimerFire 1; Change (js "bo")]))).*1.
Proof.
  destruct (unmount_cleans_up defaultProps
              (after defaultProps
                 [Change (js "b"); TimerFire 1; Change (js "bo")]))
    as (Ht & _ & Hc & _).
  - exists [Change (js "b"); TimerFire 1; Change (js "bo")].
    vm_compute. reflexivity.
  - split; [exact Ht|]. apply Hc. vm_compute. reflexivity.
Defined.

(** ** More on the suggestion source *)

Lemma Substring_refl s : Substring s s.
Proof. exists [], []. by rewrite app_nil_r. Qed.

Lemma Substring_trans a b c : Substring a b -> Substring b c -> Substring a c.
Proof.
  intros (p1 & s1 & ->) (p2 & s2 & ->). exists (p2 ++ p1), (s1 ++ s2).
  by rewrite <- !app_assoc.
Qed.

Lemma filter_sublist_impl {A} (P Q : A -> Prop)
    `{!forall x, Decision (P x)} `{!forall x, Decision (Q x)} (l : list A) :
  (forall x, P x -> Q x) -> sublist (filter P l) (filter Q l).
Proof.
  intros Himp. induction l as [|x l IH]; [done|].
  destruct (decide (P x)) as [HP|HP].
  - rewrite !filter_cons_True by auto. by constructor.
  - rewrite (filter_cons_False P) by done. destruct (decide (Q x)).
    + rewrite filter_cons_True by done. by constructor.
    + by rewrite filter_cons_False by done.
Qed.

(** X18: Searching for the exact name of a city of the list finds that city,
    whatever the lower-casing does. *)
Theorem searchCities_finds_own_name (toLowerCase : jsstring -> jsstring) c :
  c ∈ Api.data -> c ∈ Api.searchCities toLowerCase c.
Proof.
  intros Hc. unfold Api.searchCities. apply list_elem_of_filter.
  split; [|done]. apply Is_true_true, includes_spec, Substring_refl.
Qed.

Lemma searchCities_finds_own_name_witness :
  js "Berlin" ∈ Api.searchCities Api.latin1LowerCase (js "Berlin").
Proof.
  apply searchCities_finds_own_name. vm_compute.
  do 4 apply list_elem_of_further. apply list_elem_of_here.
Defined.

(** X19: Refining a query narrows the suggestions: when the lower-cased [q1]
    occurs in the lower-cased [q2], the cities found for [q2] are among those
    found for [q1], in the same order; and every answer is a sublist of the
    city list, hence of at most eight entries. *)
Theorem searchCities_narrows (toLowerCase : jsstring -> jsstring) q1 q2 :
  Substring (toLowerCase q1) (toLowerCase q2) ->
  sublist (Api.searchCities toLowerCase q2) (Api.searchCities toLowerCase q1)
  /\ sublist (Api.searchCities toLowerCase q1) Api.data
  /\ (length (Api.searchCities toLowerCase q2) <= 8)%nat.
Proof.
  intros Hsub. split; [|split].
  - apply filter_sublist_impl. intros c Hc.
    apply Is_true_true, includes_spec in Hc.
    apply Is_true_true, includes_spec. by eapply Substring_trans.
  - apply sublist_filter.
  - etrans; [apply length_filter|]. done.
Qed.

Lemma searchCities_narrows_witness :
  sublist (Api.searchCities Api.latin1LowerCase (js "Bos"))
          (Api.searchCities Api.latin1LowerCase (js "bo")).
Proof.
  apply (searchCities_narrows Api.latin1LowerCase (js "bo") (js "Bos")).
  exists [], (js "s"). vm_compute. reflexivity.
Defined.

(** ** A cached query, from its submission to the firing of its timer *)

Lemma handle_nextId props ev s s1 :
  handle props ev s = Kept s1 -> (nextId s <= nextId s1)%nat.
Proof.
  intros E. apply handle_shape in E
    as [[Hc _] | [(value & _ & ->) | [(i & id & q & _ & _ & ->)
        | (i & c & q & o & _ & _ & ->)]]].
  - destruct Hc as (_ & _ & _ & _ & _ & _ & _ & _ & _ & _ & _ & ->). lia.
  - destruct (select_frame props value s) as (_ & -> & _). lia.
  - crush_state; lia.
  - destruct (settled_frame q o
                (set_inflight (filter (fun r => r.1 ≠ c) (inflight s)) s))
      as (_ & -> & _). simpl. lia.
Qed.

Lemma step_nextId props ev s s' :
  step props ev s = Some s' -> (nextId s <= nextId s')%nat.
Proof.
  intros E. apply step_handle in E as (s1 & E & ->).
  apply handle_nextId in E. unfold commit.
  set (x := if decide _ then s1 else effect props s1).
  assert (nextId s1 <= nextId x)%nat.
  { subst x. case_decide; [lia | apply effect_nextId]. }
  destruct (runJobs_frame x) as (_ & -> & _). lia.
Qed.

Lemma effect_timers props s t :
  t ∈ timers (effect props s) -> t ∈ timers s \/ t.1 = nextId s.
Proof.
  assert (Hc : forall t, t ∈ timers (clearDebounce s) -> t ∈ timers s).
  { intros t'. unfold clearDebounce. destruct (debounceRef s); [|done].
    simpl. by intros [_ ?]%list_elem_of_filter. }
  unfold effect. case_match; simpl.
  - intros Ht. left. by apply Hc.
  - intros [Ht | Ht]%elem_of_app; [left; by apply Hc|].
    apply list_elem_of_singleton in Ht as ->. right. simpl.
    unfold clearDebounce. by destruct (debounceRef s).
Qed.

(** A timer pending after a turn was pending before it, or was armed in it. *)
Lemma step_timers props ev s s' t :
  step props ev s = Some s' -> t ∈ timers s' ->
  t ∈ timers s \/ (nextId s <= t.1)%nat.
Proof.
  intros E Ht. apply step_handle in E as (s1 & E & ->).
  pose proof (handle_nextId _ _ _ _ E) as Hn.
  destruct (handle_timers _ _ _ _ E) as [_ Hs].
  assert (H1 : forall t, t ∈ timers s1 -> t ∈ timers s).
  { intros t'. destruct Hs as [-> | [_ [id ->]]]; [done|].
    by intros [_ ?]%list_elem_of_filter. }
  unfold commit in Ht.
  set (x := if decide _ then s1 else effect props s1) in Ht.
  destruct (runJobs_frame x) as (Et & _). rewrite Et in Ht. subst x.
  case_decide; [left; by apply H1|].
  apply effect_timers in Ht as [Ht | Ht]; [left; by apply H1 | right; lia].
Qed.

(** A turn that calls [searchCities] leaves no timer pending. *)
Lemma step_fetch_clears props ev s s' :
  reachable props s -> step props ev s = Some s' ->
  fetched s' = fetched s \/ timers s' = [].
Proof.
  intros Hr E. destruct (step_shape _ _ _ _ Hr E) as (s1 & Eh & -> & Ha).
  destruct (commit_keeps props s s1 Ha) as (-> & _).
  apply handle_shape in Eh
    as [[Hc _] | [(value & _ & ->) | [(i & id & q & -> & Ef & ->)
        | (i & c & q & o & -> & Ef & ->)]]].
  - left. apply Hc.
  - left. apply select_frame.
  - right. unfold commit.
    set (s1 := debounced q (clearTimeout id s)).
    assert (Hq : query s1 = query s) by (subst s1; crush_state).
    rewrite decide_True by done.
    destruct (runJobs_frame s1) as (-> & _).
    assert (Ht : timers s1 = filter (fun t => t.1 ≠ id) (timers s))
      by (subst s1; crush_state).
    rewrite Ht. apply list_find_Some in Ef as (Hl & _).
    apply list_elem_of_lookup_2 in Hl.
    apply reachable_inv2 in Hr as [_ [H0 | (id0 & _ & H0 & _)] _ _ _];
      rewrite H0 in Hl |- *.
    + done.
    + apply list_elem_of_singleton in Hl. injection Hl as -> _.
      by rewrite filter_cons_False by (simpl; tauto).
  - left. by destruct (settled_frame q o
                (set_inflight (filter (fun r => r.1 ≠ c) (inflight s)) s))
      as (_ & _ & _ & _ & -> & _).
Qed.

(** While a timer stays pending, [searchCities] is not called. *)
Lemma pending_timer_no_fetch props evs s s' t :
  reachable props s -> run props evs s = Some s' ->
  (t.1 < nextId s)%nat -> t ∈ timers s' ->
  t ∈ timers s /\ fetched s' = fetched s.
Proof.
  revert s. induction evs as [|ev evs IH]; intros s Hr; simpl.
  - by intros [= <-].
  - destruct (step props ev s) as [s1|] eqn:E; [|done]. intros Hrun Hlt Ht.
    pose proof (step_nextId _ _ _ _ E) as Hn.
    destruct (IH s1) as [Ht1 Hf1];
      [by eapply reachable_step | done | lia | done |].
    destruct (step_timers _ _ _ _ _ E Ht1) as [Hin | Hge]; [|lia].
    split; [done|]. rewrite Hf1.
    destruct (step_fetch_clears _ _ _ _ Hr E) as [-> | Hnil]; [done|].
    rewrite Hnil in Ht1. by apply elem_of_nil in Ht1.
Qed.

Lemma run_keeps_cached props evs s s' q :
  reachable props s -> run props evs s = Some s' ->
  is_Some (cacheRef s !! q) -> is_Some (cacheRef s' !! q).
Proof.
  revert s. induction evs as [|ev evs IH]; intros s Hr; simpl.
  - by intros [= <-].
  - destruct (step props ev s) as [s1|] eqn:E; [|done]. intros Hrun Hq.
    apply (IH s1); [by eapply reachable_step | done |].
    destruct (step_cache _ _ _ _ Hr E) as [-> | (c & q' & res & _ & _ & ->)];
      [done|].
    apply lookup_insert_is_Some. destruct (decide (q' = q)); auto.
Qed.

(** The timer of a cached query fires. *)
Lemma fire_cached props s id q res :
  reachable props s -> (id, q) ∈ timers s -> cacheRef s !! q = Some res ->
  exists s', step props (TimerFire id) s = Some s' /\
    results s' = res /\ loading s' = false /\ highlightedIndex s' = -1 /\
    fetched s' = fetched s /\ inflight s' = inflight s /\
    controllerRef s' = controllerRef s /\ cacheRef s' = cacheRef s.
Proof.
  intros Hr Hin Hc. apply reachable_inv in Hr as Hi.
  apply reachable_inv2 in Hr as [_ [H0 | (id0 & _ & H0 & _)] _ _ _];
    rewrite H0 in Hin; [by apply elem_of_nil in Hin|].
  apply list_elem_of_singleton in Hin. injection Hin as -> Hq.
  eexists. split.
  { unfold step. simpl. rewrite H0. simpl. rewrite decide_True by done.
    simpl. unfold debounced. simpl. rewrite <- Hq, Hc. reflexivity. }
  rewrite commit_nojobs by (simpl; apply Hi). simpl. by rewrite decide_True.
Qed.

(** C3 (as amended): a submission of a query whose trimmed form is in the
    cache (and long enough) sets [loading] at once and arms the one debounce
    timer, issuing no fetch.  Whenever that timer fires, whatever happened
    in between, the result list then cached for the query is reported (the
    one cached at submission when the timer fires next), [loading] is cleared
    and the highlight unset, and no fetch has been issued since the
    submission. *)
Theorem cached_submission props s raw res :
  reachable props s -> raw <> query s ->
  minQueryLength props <= Z.of_nat (length (trim raw)) ->
  cacheRef s !! trim raw = Some res ->
  exists s1,
    step props (Change raw) s = Some s1 /\
    loading s1 = true /\ debounceRef s1 = Some (nextId s) /\
    timers s1 = [(nextId s, trim raw)] /\
    fetched s1 = fetched s /\ inflight s1 = inflight s /\
    controllerRef s1 = controllerRef s /\
    forall evs s1',
      run props evs s1 = Some s1' -> (nextId s, trim raw) ∈ timers s1' ->
      exists s2 res',
        step props (TimerFire (nextId s)) s1' = Some s2 /\
        cacheRef s1' !! trim raw = Some res' /\ (evs = [] -> res' = res) /\
        results s2 = res' /\ loading s2 = false /\
        highlightedIndex s2 = -1 /\ fetched s2 = fetched s /\
        inflight s2 = inflight s1' /\ controllerRef s2 = controllerRef s1'.
Proof.
  intros Hr Hne Hlen Hc. apply reachable_inv in Hr as Hi.
  set (s0 := onChange raw s). set (s1 := effect props s0).
  assert (Es : step props (Change raw) s = Some s1)
    by (apply step_change; [apply Hi | done]).
  pose proof (reachable_step _ _ _ _ Hr Es) as Hr1.
  destruct (effect_long props s0 Hlen) as (Hl & Hd & Ht & Hn & _).
  destruct (effect_frame props s0)
    as (_ & _ & Hfe & Hin & _ & _ & Hca & _ & _ & Hco).
  fold s1 in Hl, Hd, Ht, Hn, Hfe, Hin, Hca, Hco.
  change (nextId s0) with (nextId s) in *. change (query s0) with raw in *.
  change (fetched s0) with (fetched s) in Hfe.
  change (inflight s0) with (inflight s) in Hin.
  change (cacheRef s0) with (cacheRef s) in Hca.
  change (controllerRef s0) with (controllerRef s) in Hco.
  assert (Hin1 : (nextId s, trim raw) ∈ timers s1).
  { rewrite Ht. apply elem_of_app. right. apply list_elem_of_here. }
  exists s1. repeat (split; [done|]). split.
  { apply reachable_inv2 in Hr1 as [_ [H0 | (id0 & _ & H0 & _)] _ _ _];
      rewrite H0 in Hin1; [by apply elem_of_nil in Hin1|].
    apply list_elem_of_singleton in Hin1. by rewrite H0, Hin1. }
  repeat (split; [done|]).
  intros evs s1' Hrun Hpend.
  destruct (pending_timer_no_fetch props evs s1 s1' (nextId s, trim raw)
              Hr1 Hrun) as [_ Hf];
    [simpl; lia | done |].
  destruct (run_keeps_cached props evs s1 s1' (trim raw) Hr1 Hrun)
    as [res' Hc']; [rewrite Hca; eauto|].
  destruct (fire_cached props s1' _ _ res'
              (reachable_run _ _ _ _ Hr1 Hrun) Hpend Hc')
    as (s2 & E2 & Hres & Hl2 & Hh2 & Hf2 & Hi2 & Hc2 & _).
  exists s2, res'. repeat (split; [done|]). split.
  { intros ->. injection Hrun as <-. rewrite Hca in Hc'. congruence. }
  repeat (split; [done|]). split; [congruence | done].
Qed.

Lemma cached_submission_witness :
  let s := after defaultProps (typed_b ++ [Change (js "bo"); TimerFire 3]) in
  exists s1 s1' s2,
    step defaultProps (Change (js " b")) s = Some s1 /\ loading s1 = true /\
    step defaultProps (Settle 4 (Resolved (source (js "bo")))) s1 = Some s1' /\
    loading s1' = false /\
    step defaultProps (TimerFire 5) s1' = Some s2 /\
    results s2 = Api.data /\ fetched s2 = [js "b"; js "bo"].
Proof.
  destruct (cached_submission defaultProps
              (after defaultProps (typed_b ++ [Change (js "bo"); TimerFire 3]))
              (js " b") Api.data)
    as (s1 & H1 & Hl & _ & _ & _ & _ & _ & Hfire).
  - exists (typed_b ++ [Change (js "bo"); TimerFire 3]). vm_compute. reflexivity.
  - vm_compute. discriminate.
  - vm_compute. discriminate.
  - vm_compute. reflexivity.
  - assert (E1 : s1 = after defaultProps
                        (typed_b ++ [Change (js "bo"); TimerFire 3;
                                     Change (js " b")])).
    { vm_compute in H1. injection H1 as <-. vm_compute. reflexivity. }
    set (s1' := after defaultProps
                  (typed_b ++ [Change (js "bo"); TimerFire 3; Change (js " b");
                               Settle 4 (Resolved (source (js "bo")))])).
    assert (E2 : step defaultProps (Settle 4 (Resolved (source (js "bo")))) s1
                 = Some s1').
    { rewrite E1. vm_compute. reflexivity. }
    destruct (Hfire [Settle 4 (Resolved (source (js "bo")))] s1')
      as (s2 & res' & Hs2 & Hc' & _ & Hres & _ & _ & Hf & _).
    { rewrite run_cons, E2. reflexivity. }
    { vm_compute. apply list_elem_of_here. }
    exists s1, s1', s2. split; [exact H1|]. split; [exact Hl|].
    split; [exact E2|]. split; [vm_compute; reflexivity|].
    split; [exact Hs2|]. split.
    + rewrite Hres. vm_compute in Hc'. by injection Hc' as <-.
    + rewrite Hf. vm_compute. reflexivity.
Defined.
